(** * Retrieval engine of my-mastra-app: shallow embedding and properties

    The development embeds the two variants of the retrieval code:
    - [SimpleStore]: the in-memory [SimpleVectorStore], its [ragSearchTool]
      and [addDocumentsToKnowledgeBase] (src/mastra/agents/rag-agent.ts);
    - [RagTools]: [addDocumentTool] and the advanced [ragSearchTool] that
      talk to an external vector index and embedding service (rag-tools).

    JavaScript numbers are IEEE 754 binary64 numbers.  They are modelled
    by the specification of floating-point arithmetic of the standard
    library ([SpecFloat], with 53 bits of precision and exponents up to
    1024): every operation rounds to nearest, ties to even, and overflows,
    underflows and produces NaN as the language does. *)

From Stdlib Require Import ZArith Zpower SpecFloat.
From stdpp Require Import gmap strings list pretty sorting.

Local Open Scope Z_scope.

(* ===================================================================== *)
(** ** JavaScript numbers: binary64                                       *)
(* ===================================================================== *)

Module JsNum.

Definition prec : Z := 53.
Definition emax : Z := 1024.

(** A number: a signed zero, a signed infinity, NaN, or [±m * 2^e]. *)
Abbreviation num := spec_float.

Definition nan : num := S754_nan.

(** The literal [0]. *)
Definition zero : num := S754_zero false.

(** [x + y] *)
Definition add : num -> num -> num := SFadd prec emax.

(** [- x] *)
Definition neg : num -> num := SFopp.

(** [x - y] *)
Definition sub : num -> num -> num := SFsub prec emax.

(** [x * y] *)
Definition mul : num -> num -> num := SFmul prec emax.

(** [x / y] *)
Definition div : num -> num -> num := SFdiv prec emax.

(** [Math.sqrt x] *)
Definition sqrt : num -> num := SFsqrt prec emax.



(** [x > y] *)
Definition gtb (x y : num) : bool := SFltb y x.


(** Truthiness of a number: [0], [-0] and [NaN] are falsy. *)
Definition truthy (x : num) : bool :=
  match x with
  | S754_zero _ | S754_nan => false
  | _ => true
  end.

Definition is_nan (x : num) : bool :=
  match x with S754_nan => true | _ => false end.

Definition is_zero (x : num) : bool :=
  match x with S754_zero _ => true | _ => false end.

Definition is_finite (x : num) : bool :=
  match x with S754_zero _ | S754_finite _ _ _ => true | _ => false end.

(** The values of the type that are binary64 numbers: the mantissa has at
    most 53 bits and the exponent is the smallest one that allows it. *)
Definition valid (x : num) : bool := valid_binary prec emax x.

(** The binary64 number nearest to [m * 2^e]. *)
Definition scaled (m e : Z) : num := binary_normalize prec emax m e false.

(** The binary64 number nearest to an integer; exact below [2^53]. *)
Definition ofZ (z : Z) : num := scaled z 0.

(** The literal [1]. *)
Definition one : num := S754_finite false 4503599627370496 (-52).

(** The literals [0.1], [0.5] and [0.7]: the binary64 numbers nearest to
    the decimals. *)
Definition tenth : num := S754_finite false 7205759403792794 (-56).
Definition half : num := S754_finite false 4503599627370496 (-53).
Definition sevenTenths : num := S754_finite false 6305039478318694 (-53).

End JsNum.

Import JsNum.

(* ===================================================================== *)
(** ** Values, metadata maps and thrown values                            *)
(* ===================================================================== *)

(** The values that appear in metadata records ([Record<string, any>]);
    numbers stored in metadata are the integer chunk indices. *)
Inductive JsVal : Type :=
| JUndefined
| JNull
| JBool (b : bool)
| JInt (z : Z)
| JStr (s : string).

#[global] Instance JsVal_eq_dec : EqDecision JsVal.
Proof. solve_decision. Defined.

Abbreviation Metadata := (gmap string JsVal).

(** An embedding vector ([number[]]). *)
Abbreviation vector := (list num).

(** What a [throw] carries: an [Error] instance with its message, or any
    other value. *)
Inductive Thrown : Type :=
| ErrorObj (message : string)
| NonError (v : JsVal).

(** [String(v)], as used by template literals. *)
Definition toString (v : JsVal) : string :=
  match v with
  | JUndefined => "undefined"
  | JNull => "null"
  | JBool true => "true"
  | JBool false => "false"
  | JInt z => pretty z
  | JStr s => s
  end.

(** Truthiness of a value. *)
Definition truthy (v : JsVal) : bool :=
  match v with
  | JUndefined | JNull => false
  | JBool b => b
  | JInt z => negb (z =? 0)
  | JStr s => negb (String.eqb s "")
  end.

(** [m.k] on a record: a missing key reads as [undefined]. *)
Definition prop (m : Metadata) (k : string) : JsVal :=
  default JUndefined (m !! k).

(** [a || b] *)
Definition or_else (a b : JsVal) : JsVal := if truthy a then a else b.

(** The line feed of the string literals. *)
Definition nl : string := String (Ascii.ascii_of_nat 10) "".

(** [Array.prototype.join] on strings. *)
Fixpoint join (sep : string) (l : list string) : string :=
  match l with
  | [] => ""
  | [s] => s
  | s :: l' => s +:+ sep +:+ join sep l'
  end.

(** The literal that joins the contents of the sources. *)
Definition contextSeparator : string := nl +:+ nl +:+ "---" +:+ nl +:+ nl.

(** The double quote of the string literals. *)
Definition dquote : string := String (Ascii.ascii_of_nat 34) "".

(** [join] on arbitrary values: [undefined] and [null] print as the empty
    string, everything else through [toString]. *)
Definition join_item (v : JsVal) : string :=
  match v with
  | JUndefined | JNull => ""
  | _ => toString v
  end.

(** [Array.prototype.slice(start, end)] with its treatment of negative and
    out-of-range bounds. *)
Definition clamp_index (len i : Z) : Z :=
  if i <? 0 then Z.max (len + i) 0 else Z.min i len.

Definition slice {A} (start end_ : Z) (l : list A) : list A :=
  let len := Z.of_nat (length l) in
  let k := clamp_index len start in
  let final := clamp_index len end_ in
  take (Z.to_nat (Z.max (final - k) 0)) (drop (Z.to_nat k) l).

(** [Array.prototype.sort(comparefn)]: a stable sort.  The comparator's
    result [v] is read as the language prescribes: NaN counts as [+0],
    [v > 0] sends the first argument behind the second.  The model is the
    insertion sort that keeps equal elements in their original order.  On a
    consistent comparator every stable sort returns the same array; on an
    inconsistent one (a comparator that returns NaN) the language leaves
    the order to the implementation, of which this is one. *)
Section Sort.
Context {A : Type} (comparefn : A -> A -> num).

Definition sort_compare (x y : A) : num :=
  let v := comparefn x y in
  if is_nan v then zero else v.

Fixpoint sort_insert (x : A) (l : list A) : list A :=
  match l with
  | [] => [x]
  | y :: l' =>
      if gtb (sort_compare x y) zero then y :: sort_insert x l'
      else x :: l
  end.

Definition js_sort (l : list A) : list A := foldr sort_insert [] l.
End Sort.

(** [Array.prototype.reduce] with the element index passed to the callback. *)
Fixpoint reduce_from {A B} (f : B -> A -> nat -> B) (i : nat) (l : list A)
    (acc : B) : B :=
  match l with
  | [] => acc
  | x :: l' => reduce_from f (S i) l' (f acc x i)
  end.

Definition reduce {A B} (f : B -> A -> nat -> B) (l : list A) (init : B) : B :=
  reduce_from f 0 l init.

(** [b[i]] read as a number: out of range is [undefined], hence NaN in
    arithmetic. *)
Definition at_index (b : vector) (i : nat) : num :=
  match b !! i with
  | Some x => x
  | None => nan
  end.

(* ===================================================================== *)
(** ** Effects: external calls, their trace, exceptions                   *)
(* ===================================================================== *)

(** Arguments of [vectorStore.query] on the external index. *)
Record QueryArgs : Type := {
  q_indexName : string;
  q_queryVector : option vector;
  q_topK : Z;
  q_filter : option Metadata;
  q_includeVector : bool;
  q_minScore : num
}.

(** One match returned by the external index. *)
Record QueryResult : Type := {
  qr_id : string;
  qr_score : num;
  qr_metadata : option Metadata
}.

Inductive Call : Type :=
| CreateIndex (indexName : string) (dimension : Z) (metric : string)
| EmbedMany (values : list string)
| Embed (value : string)
| Upsert (indexName : string) (vectors : list vector)
    (metadata : list Metadata) (ids : list string)
| Query (args : QueryArgs).

(** What an external call hands back. *)
Inductive RetVal : Type :=
| RUnit
| RVector (v : vector)
| RVectors (vs : list vector)
| RResults (rs : list QueryResult).

Inductive Outcome : Type :=
| Returned (v : RetVal)
| Threw (e : Thrown).

Abbreviation Event := (Call * Outcome)%type.

(** The external collaborators, as transformers of an opaque world [W]:
    the clock, the embedding service and the vector index. *)
Record Backend (W : Type) : Type := {
  dateNow : W -> Z * W;
  toISOString : Z -> string;
  createIndex : string -> Z -> string -> W -> (Thrown + unit) * W;
  embedMany : list string -> W -> (Thrown + list vector) * W;
  embed : string -> W -> (Thrown + vector) * W;
  upsert : string -> list vector -> list Metadata -> list string ->
           W -> (Thrown + unit) * W;
  storeQuery : QueryArgs -> W -> (Thrown + list QueryResult) * W
}.
Arguments dateNow {W}. Arguments toISOString {W}.
Arguments createIndex {W}. Arguments embedMany {W}. Arguments embed {W}.
Arguments upsert {W}. Arguments storeQuery {W}.

(** A chunk produced by [MDocument.chunk]. *)
Record Chunk : Type := {
  chunk_text : string;
  chunk_metadata : Metadata
}.

Record ChunkArgs : Type := {
  strategy : string;
  size : Z;
  overlap : Z;
  separator : option string
}.

(** The document library ([MDocument] of the RAG package): building a
    document, chunking it (which also updates the document), reading the
    metadata of its parts. *)
Record DocLib : Type := {
  MDocument : Type;
  fromText : string -> Metadata -> MDocument;
  chunk : MDocument -> ChunkArgs -> Thrown + (MDocument * list Chunk);
  getMetadata : MDocument -> list Metadata
}.

Record Env (W : Type) : Type := {
  world : W;
  trace : list Event
}.
Arguments world {W}. Arguments trace {W}.

(** State and exception monad. *)
Definition M (St A : Type) : Type := St -> (Thrown + A) * St.

Definition ret {St A} (a : A) : M St A := fun s => (inr a, s).

Definition throw {St A} (e : Thrown) : M St A := fun s => (inl e, s).

Definition bind {St A B} (m : M St A) (k : A -> M St B) : M St B :=
  fun s =>
    match m s with
    | (inr a, s') => k a s'
    | (inl e, s') => (inl e, s')
    end.

(** [try { body } catch (error) { handler }] *)
Definition try_catch {St A} (body : M St A) (handler : Thrown -> M St A) : M St A :=
  fun s =>
    match body s with
    | (inl e, s') => handler e s'
    | r => r
    end.

Notation "x <- m ;; k" := (bind m (fun x => k))
  (at level 100, m at next level, right associativity).

(** A pure computation that may throw. *)
Definition lift_sum {St A} (r : Thrown + A) : M St A := fun s => (r, s).

(** [Array.prototype.map] with an effectful callback that also receives the
    index. *)
Fixpoint mapM_from {St A B} (f : A -> nat -> M St B) (i : nat) (l : list A)
    : M St (list B) :=
  match l with
  | [] => ret []
  | x :: l' =>
      y <- f x i ;;
      ys <- mapM_from f (S i) l' ;;
      ret (y :: ys)
  end.

Definition mapM {St A B} (f : A -> nat -> M St B) (l : list A) : M St (list B) :=
  mapM_from f 0 l.

Definition outcome_of {A} (inj : A -> RetVal) (r : Thrown + A) : Outcome :=
  match r with
  | inl e => Threw e
  | inr a => Returned (inj a)
  end.

(** An external call: run the handler on the world and record the call with
    its outcome. *)
Definition call {W A} (c : Call) (inj : A -> RetVal)
    (h : W -> (Thrown + A) * W) : M (Env W) A :=
  fun env =>
    let r := h (world env) in
    (r.1, {| world := r.2; trace := trace env ++ [(c, outcome_of inj r.1)] |}).

(** The environment in front of a call: a world and no event yet. *)
Definition start {W} (w : W) : Env W := {| world := w; trace := [] |}.

(** The [n]-th reading of the clock from a world on (counting from 0). *)
Definition reading {W} (B : Backend W) (n : nat) (w : W) : Z :=
  (dateNow B (Nat.iter n (fun w => (dateNow B w).2) w)).1.

(** [Date.now()] *)
Definition now {W} (B : Backend W) : M (Env W) Z :=
  fun env =>
    let r := dateNow B (world env) in
    (inr r.1, {| world := r.2; trace := trace env |}).

(** [new Date().toISOString()] *)
Definition isoNow {W} (B : Backend W) : M (Env W) string :=
  t <- now B ;; ret (toISOString B t).

(** [error instanceof Error ? error.message : fallback] *)
Definition message_or (e : Thrown) (fallback : string) : string :=
  match e with
  | ErrorObj m => m
  | NonError _ => fallback
  end.

(** A source entry of a search response. *)
Record Source : Type := {
  src_id : string;
  src_content : JsVal;
  src_score : num;
  src_metadata : Metadata
}.

(** The [TypeError] of a property read on [undefined]. *)
Definition typeError (property : string) : Thrown :=
  ErrorObj ("Cannot read properties of undefined (reading '" +:+ property +:+ "')").

(* ===================================================================== *)
(** ** The in-memory store and its search tool (rag-agent.ts)             *)
(* ===================================================================== *)

Module SimpleStore.

(** An element of [SimpleVectorStore.documents].  [addDocuments] stores
    [embeddings[i]], which is [undefined] when fewer embeddings than texts
    are passed. *)
Record Doc : Type := {
  doc_id : string;
  doc_embedding : option vector;
  doc_metadata : Metadata
}.

Record VectorResult : Type := {
  id : string;
  score : num;
  metadata : Metadata
}.

(** The module-level singleton [vectorStore] together with the external
    world. *)
Record State (W : Type) : Type := {
  documents : list Doc;
  env : Env W
}.
Arguments documents {W}. Arguments env {W}.

Definition liftEnv {W A} (m : M (Env W) A) : M (State W) A :=
  fun st =>
    let '(r, e') := m (env st) in
    (r, {| documents := documents st; env := e' |}).

(** [a.reduce((sum, a_i, i) => sum + a_i * b[i], 0)] *)
Definition dotProduct (a b : vector) : num :=
  reduce (fun sum a_i i => add sum (mul a_i (at_index b i))) a zero.

(** [Math.sqrt(a.reduce((sum, a_i) => sum + a_i * a_i, 0))] *)
Definition magnitude (a : vector) : num :=
  sqrt (reduce (fun sum a_i (_ : nat) => add sum (mul a_i a_i)) a zero).

(** [SimpleVectorStore.cosineSimilarity].  With [b] undefined the first
    property read on it throws: [b[0]] inside the first callback, or
    [b.reduce] when [a] is empty. *)
Definition cosineSimilarity (a : vector) (b : option vector) : Thrown + num :=
  match b with
  | None => inl (typeError (match a with [] => "reduce" | _ => "0" end))
  | Some b =>
      let dotProduct := dotProduct a b in
      let magnitudeA := magnitude a in
      let magnitudeB := magnitude b in
      inr (div dotProduct (mul magnitudeA magnitudeB))
  end.

(** [this.documents.map(doc => ...)] of [query], stopping at the first
    throw. *)
Fixpoint scoreAll (queryEmbedding : vector) (docs : list Doc)
    : Thrown + list VectorResult :=
  match docs with
  | [] => inr []
  | doc :: docs' =>
      match cosineSimilarity queryEmbedding (doc_embedding doc) with
      | inl e => inl e
      | inr similarity =>
          match scoreAll queryEmbedding docs' with
          | inl e => inl e
          | inr rest =>
              inr ({| id := doc_id doc; score := similarity;
                      metadata := doc_metadata doc |} :: rest)
          end
      end
  end.

(** The comparator [(a, b) => b.score - a.score]. *)
Definition byScoreDesc (a b : VectorResult) : num := sub (score b) (score a).

(** The sorted and truncated array, before the final filter. *)
Definition ranked (results : list VectorResult) (topK : Z) : list VectorResult :=
  slice 0 topK (js_sort byScoreDesc results).

(** [result => result.score > 0.1] *)
Definition aboveThreshold (result : VectorResult) : bool :=
  gtb (score result) tenth.

(** [SimpleVectorStore.query(queryEmbedding, topK = 5)] on the documents of
    the store. *)
Definition query (docs : list Doc) (queryEmbedding : vector) (topK : option Z)
    : Thrown + list VectorResult :=
  let topK := default 5 topK in
  match scoreAll queryEmbedding docs with
  | inl e => inl e
  | inr results => inr (filter (fun result => aboveThreshold result) (ranked results topK))
  end.

(** One iteration of the loop of [addDocuments]. *)
Definition addOne {W} (B : Backend W) (texts : list string)
    (embeddings : list vector) (metadata : list Metadata) (i : nat)
    : M (State W) unit :=
  t <- liftEnv (now B) ;;
  fun st =>
    (inr tt,
     {| documents :=
          documents st ++
          [{| doc_id := "doc-" +:+ pretty t +:+ "-" +:+ pretty (Z.of_nat i);
              doc_embedding := embeddings !! i;
              doc_metadata :=
                default ∅ (metadata !! i)
                ∪ {[ "text" := default JUndefined (JStr <$> texts !! i) ]} |}];
        env := env st |}).

Fixpoint forLoop {St} (body : nat -> M St unit) (i n : nat) : M St unit :=
  match n with
  | O => ret tt
  | S n' => _ <- body i ;; forLoop body (S i) n'
  end.

(** [SimpleVectorStore.addDocuments(texts, embeddings, metadata)] *)
Definition addDocuments {W} (B : Backend W) (texts : list string)
    (embeddings : list vector) (metadata : list Metadata) : M (State W) unit :=
  forLoop (addOne B texts embeddings metadata) 0 (length texts).

Record SearchOutput : Type := {
  relevantContext : string;
  sources : list Source
}.


Definition toSource (result : VectorResult) (index : nat) : Source :=
  {| src_id := if negb (String.eqb (id result) "") then id result
               else "result-" +:+ pretty (Z.of_nat index);
     src_content := or_else (prop (metadata result) "text")
                      (JStr "No content available");
     src_score := if JsNum.truthy (score result) then score result else zero;
     src_metadata := metadata result |}.

(** [ragSearchTool.execute] of the in-memory variant. *)
Definition ragSearchTool {W} (B : Backend W) (query_ : string)
    (maxResults : option Z) : M (State W) SearchOutput :=
  let maxResults := default 5 maxResults in
  try_catch
    (queryEmbedding <- liftEnv (call (Embed query_) RVector (embed B query_)) ;;
     searchResults <-
       (fun st => (query (documents st) queryEmbedding (Some maxResults), st)) ;;
     if (length searchResults =? 0)%nat then
       ret {| relevantContext := "No relevant documents found for the given query.";
              sources := [] |}
     else
       let sources := imap (fun index result => toSource result index) searchResults in
       let relevantContext :=
         join contextSeparator (map (fun source => join_item (src_content source)) sources) in
       ret {| relevantContext := relevantContext; sources := sources |})
    (fun error =>
       ret {| relevantContext :=
                "Error occurred while searching the knowledge base: "
                +:+ message_or error "Unknown error"
                +:+ ". Please try rephrasing your question.";
              sources := [] |}).

(** The metadata pushed for chunk [idx] of document [i]. *)
Definition chunkRecord (docMetadata : Metadata) (i : nat) (c : Chunk)
    (idx : nat) (timestamp : string) : Metadata :=
  docMetadata ∪ (chunk_metadata c ∪
    <[ "timestamp" := JStr timestamp ]>
    (<[ "chunk_index" := JInt (Z.of_nat idx) ]>
    (<[ "source" := or_else (prop docMetadata "source")
                      (JStr ("document-" +:+ pretty (Z.of_nat i))) ]>
    {[ "text" := JStr (chunk_text c) ]}))).

(** The body of the loop over the documents: the chunk texts and records the
    document contributes. *)
Definition processDocument {W} (B : Backend W) (L : DocLib)
    (metadata : option (list Metadata)) (docText : string) (i : nat)
    : M (State W) (list (string * Metadata)) :=
  let docMetadata :=
    match metadata with
    | Some mds => default ∅ (mds !! i)
    | None => ∅
    end in
  let doc := fromText L docText docMetadata in
  r <- lift_sum (chunk L doc {| strategy := "recursive"; size := 512;
                               overlap := 50; separator := None |}) ;;
  mapM (fun c idx =>
          timestamp <- liftEnv (isoNow B) ;;
          ret (chunk_text c, chunkRecord docMetadata i c idx timestamp))
       (snd r).

(** [addDocumentsToKnowledgeBase(documents, metadata?)]; the catch block
    logs and rethrows. *)
Definition addDocumentsToKnowledgeBase {W} (B : Backend W) (L : DocLib)
    (docs : list string) (metadata : option (list Metadata))
    : M (State W) unit :=
  try_catch
    (perDoc <- mapM (processDocument B L metadata) docs ;;
     let allChunks := map fst (concat perDoc) in
     let allMetadata := map snd (concat perDoc) in
     embeddings <- liftEnv (call (EmbedMany allChunks) RVectors (embedMany B allChunks)) ;;
     addDocuments B allChunks embeddings allMetadata)
    (fun error => throw error).

(** The events a computation adds: the trace only grows, by [evs]. *)
Definition adds {W A} (m : M (State W) A) (st : State W) (evs : list Event)
    : Prop :=
  trace (env (m st).2) = trace (env st) ++ evs.

End SimpleStore.

(* ===================================================================== *)
(** ** The tools over the external index (rag-tools)                      *)
(* ===================================================================== *)

Module RagTools.

Definition indexName : string := "knowledge-base".

Record AddDocumentInput : Type := {
  text : string;
  in_metadata : option Metadata;
  chunkSize : option Z;
  chunkOverlap : option Z
}.

Record AddDocumentOutput : Type := {
  documentId : JsVal;
  chunksCreated : Z;
  embedded : bool;
  message : string
}.

Record SearchInput : Type := {
  query : string;
  maxResults : option Z;
  minScore : option num;
  in_filter : option Metadata
}.

Record SearchOutput : Type := {
  relevantContext : string;
  sources : list Source;
  totalFound : Z;
  searchPerformed : bool
}.

Section Tools.
Context {W : Type} (B : Backend W) (L : DocLib).

(** The inner [try { await vectorStore.createIndex(...) } catch { log }]. *)
Definition ensureIndex : M (Env W) unit :=
  try_catch
    (call (CreateIndex indexName 768 "cosine") (fun _ => RUnit)
          (createIndex B indexName 768 "cosine"))
    (fun error => ret tt).

(** [`doc-${Date.now()}`] *)
Definition freshId : M (Env W) JsVal :=
  t <- now B ;; ret (JStr ("doc-" +:+ pretty t)).

(** [docMetadata[0]?.id || `doc-${Date.now()}`] *)
Definition chooseDocumentId (docMetadata : list Metadata) : M (Env W) JsVal :=
  let first :=
    match docMetadata !! 0%nat with
    | Some m => prop m "id"
    | None => JUndefined
    end in
  if truthy first then ret first else freshId.

(** The metadata record built for the chunk at [index]. *)
Definition chunkRecord (documentId : JsVal) (c : Chunk) (index : nat)
    (addedAt : string) : Metadata :=
  <[ "addedAt" := JStr addedAt ]>
  (<[ "chunkIndex" := JInt (Z.of_nat index) ]>
  (<[ "documentId" := documentId ]>
  (<[ "text" := JStr (chunk_text c) ]> (chunk_metadata c)))).

(** [`${documentId}-chunk-${index}`] *)
Definition chunkId (documentId : JsVal) (index : nat) : string :=
  toString documentId +:+ "-chunk-" +:+ pretty (Z.of_nat index).

Definition failedOutput (error : Thrown) : AddDocumentOutput :=
  let errorMessage := message_or error "Unknown error occurred" in
  {| documentId := JStr "error";
     chunksCreated := 0;
     embedded := false;
     message := "Error processing document: " +:+ errorMessage |}.

(** The argument of [document.chunk]. *)
Definition chunkArgs (input : AddDocumentInput) : ChunkArgs :=
  let chunkSize := default 512 (chunkSize input) in
  let chunkOverlap := default 50 (chunkOverlap input) in
  {| strategy := "recursive"; size := chunkSize; overlap := chunkOverlap;
     separator := Some (nl +:+ nl) |}.

(** The message of the successful result. *)
Definition successMessage (n : nat) : string :=
  "Successfully processed document into " +:+ pretty (Z.of_nat n)
  +:+ " chunks and stored embeddings in vector database.".

(** [addDocumentTool.execute] *)
Definition addDocumentTool (input : AddDocumentInput) : M (Env W) AddDocumentOutput :=
  let metadata := default ∅ (in_metadata input) in
  try_catch
    (addedAt <- isoNow B ;;
     id <- freshId ;;
     let document :=
       fromText L (text input)
         (<[ "id" := id ]> (<[ "addedAt" := JStr addedAt ]> metadata)) in
     r <- lift_sum (chunk L document (chunkArgs input)) ;;
     let chunks := snd r in
     let docMetadata := getMetadata L (fst r) in
     documentId <- chooseDocumentId docMetadata ;;
     _ <- ensureIndex ;;
     let chunkTexts := map chunk_text chunks in
     chunkMetadata <-
       mapM (fun c index =>
               addedAt <- isoNow B ;;
               ret (chunkRecord documentId c index addedAt))
            chunks ;;
     embeddings <- call (EmbedMany chunkTexts) RVectors (embedMany B chunkTexts) ;;
     let ids := imap (fun index _ => chunkId documentId index) chunks in
     _ <- call (Upsert indexName embeddings chunkMetadata ids) (fun _ => RUnit)
               (upsert B indexName embeddings chunkMetadata ids) ;;
     ret {| documentId := documentId;
            chunksCreated := Z.of_nat (length chunks);
            embedded := true;
            message := successMessage (length chunks) |})
    (fun error => ret (failedOutput error)).

Definition resultSource (result : QueryResult) : Source :=
  {| src_id := qr_id result;
     src_content :=
       or_else (match qr_metadata result with
                | Some m => prop m "text"
                | None => JUndefined
                end)
               (JStr "No content available");
     src_score := qr_score result;
     src_metadata := default ∅ (qr_metadata result) |}.

(** [`[Source: ${source.metadata.documentId || 'unknown'}]\n${source.content}`] *)
Definition sourceBlock (source : Source) : string :=
  "[Source: "
  +:+ toString (or_else (prop (src_metadata source) "documentId") (JStr "unknown"))
  +:+ "]" +:+ nl +:+ toString (src_content source).

Definition fallbackContent (query : string) (errorMessage : string) : string :=
  "Based on the query " +:+ dquote +:+ query +:+ dquote
  +:+ ", here is fallback information. The vector search encountered an error: "
  +:+ errorMessage.

Definition fallbackMetadata : Metadata :=
  <[ "error" := JBool true ]>
  (<[ "source" := JStr "error-fallback" ]>
  {[ "documentId" := JStr "fallback" ]}).

Definition fallbackOutput (query : string) (error : Thrown) : SearchOutput :=
  let errorMessage := message_or error "Unknown error occurred" in
  let mockResults :=
    [ {| src_id := "fallback-1";
         src_content := JStr (fallbackContent query errorMessage);
         src_score := half;
         src_metadata := fallbackMetadata |} ] in
  {| relevantContext := fallbackContent query errorMessage;
     sources := mockResults;
     totalFound := 1;
     searchPerformed := false |}.

(** The argument of [vectorStore.query]. *)
Definition queryArgs (input : SearchInput) (queryEmbedding : list vector)
    : QueryArgs :=
  let maxResults := default 5 (maxResults input) in
  let minScore := default sevenTenths (minScore input) in
  {| q_indexName := indexName;
     q_queryVector := queryEmbedding !! 0%nat;
     q_topK := maxResults;
     q_filter := in_filter input;
     q_includeVector := false;
     q_minScore := minScore |}.

(** [ragSearchTool.execute] of the advanced variant. *)
Definition ragSearchTool (input : SearchInput) : M (Env W) SearchOutput :=
  try_catch
    (queryEmbedding <-
       call (EmbedMany [query input]) RVectors (embedMany B [query input]) ;;
     let args := queryArgs input queryEmbedding in
     vectorResults <- call (Query args) RResults (storeQuery B args) ;;
     let sources := map resultSource vectorResults in
     let relevantContext := join contextSeparator (map sourceBlock sources) in
     ret {| relevantContext := relevantContext;
            sources := sources;
            totalFound := Z.of_nat (length vectorResults);
            searchPerformed := true |})
    (fun error => ret (fallbackOutput (query input) error)).

End Tools.

(** *** The runs of [addDocumentTool]

    The values a call computes on its way, from the initial world [w], and
    the shapes its trace and result can take. *)
Section Runs.
Context {W : Type} (B : Backend W) (L : DocLib).
Context (input : AddDocumentInput) (w : W).

(** The metadata handed to [MDocument.fromText]: the caller's metadata, then
    [addedAt], then [id] from the second reading of the clock. *)
Definition documentMetadata : Metadata :=
  <[ "id" := JStr ("doc-" +:+ pretty (reading B 1 w)) ]>
  (<[ "addedAt" := JStr (toISOString B (reading B 0 w)) ]>
   (default ∅ (in_metadata input))).

Definition chunked : Thrown + (MDocument L * list Chunk) :=
  chunk L (fromText L (text input) documentMetadata) (chunkArgs input).

(** The document id chosen after chunking; the fallback takes the third
    reading of the clock. *)
Definition idOf (doc' : MDocument L) : JsVal :=
  let first :=
    match getMetadata L doc' !! 0%nat with
    | Some m => prop m "id"
    | None => JUndefined
    end in
  if truthy first then first else JStr ("doc-" +:+ pretty (reading B 2 w)).

Definition idsOf (doc' : MDocument L) (chunks : list Chunk) : list string :=
  imap (fun index _ => chunkId (idOf doc') index) chunks.

Definition createIndexCall : Call := CreateIndex indexName 768 "cosine".

Inductive Run : list Event -> AddDocumentOutput -> Prop :=
| run_chunk_failed e :
    chunked = inl e ->
    Run [] (failedOutput e)
| run_embed_failed doc' chunks o e :
    chunked = inr (doc', chunks) ->
    Run [ (createIndexCall, o);
          (EmbedMany (map chunk_text chunks), Threw e) ]
        (failedOutput e)
| run_upsert_failed doc' chunks o vs mds e :
    chunked = inr (doc', chunks) ->
    length mds = length chunks ->
    Run [ (createIndexCall, o);
          (EmbedMany (map chunk_text chunks), Returned (RVectors vs));
          (Upsert indexName vs mds (idsOf doc' chunks), Threw e) ]
        (failedOutput e)
| run_stored doc' chunks o vs mds :
    chunked = inr (doc', chunks) ->
    length mds = length chunks ->
    Run [ (createIndexCall, o);
          (EmbedMany (map chunk_text chunks), Returned (RVectors vs));
          (Upsert indexName vs mds (idsOf doc' chunks), Returned RUnit) ]
        {| documentId := idOf doc';
           chunksCreated := Z.of_nat (length chunks);
           embedded := true;
           message := successMessage (length chunks) |}.

(** Worlds reached by reading the clock any number of times. *)
Inductive ticks : W -> W -> Prop :=
| ticks_refl w0 : ticks w0 w0
| ticks_step w0 w1 : ticks (dateNow B w0).2 w1 -> ticks w0 w1.

(** The world a run leaves behind, along its trace: apart from the clock,
    the world is only acted upon by the calls of the trace, in order. *)
Inductive Leaves : list Event -> W -> Prop :=
| leaves_no_call w' :
    ticks w w' ->
    Leaves [] w'
| leaves_embedding w3 w5 texts e w' :
    ticks w w3 ->
    ticks (createIndex B indexName 768 "cosine" w3).2 w5 ->
    embedMany B texts w5 = (inl e, w') ->
    Leaves [ (createIndexCall,
              outcome_of (fun _ => RUnit)
                         (createIndex B indexName 768 "cosine" w3).1);
             (EmbedMany texts, Threw e) ]
           w'
| leaves_upsert w3 w5 texts vs w6 mds ids r :
    ticks w w3 ->
    ticks (createIndex B indexName 768 "cosine" w3).2 w5 ->
    embedMany B texts w5 = (inr vs, w6) ->
    upsert B indexName vs mds ids w6 = r ->
    Leaves [ (createIndexCall,
              outcome_of (fun _ => RUnit)
                         (createIndex B indexName 768 "cosine" w3).1);
             (EmbedMany texts, Returned (RVectors vs));
             (Upsert indexName vs mds ids, outcome_of (fun _ => RUnit) r.1) ]
           r.2.

End Runs.

(** The calls of one kind in a trace. *)
Definition isUpsert (ev : Event) : bool :=
  match ev.1 with Upsert _ _ _ _ => true | _ => false end.

Definition isEmbedMany (ev : Event) : bool :=
  match ev.1 with EmbedMany _ => true | _ => false end.

(** [n] calls of [ensureIndex] in a row. *)
Fixpoint ensureIndexTimes {W} (B : Backend W) (n : nat) : M (Env W) unit :=
  match n with
  | O => ret tt
  | S n' => _ <- ensureIndex B ;; ensureIndexTimes B n'
  end.

(** The document library hands the [id] of a document on to the metadata
    it reports after chunking. *)
Definition inheritsId (L : DocLib) : Prop :=
  ∀ text md args doc' chunks m,
    chunk L (fromText L text md) args = inr (doc', chunks) →
    getMetadata L doc' !! 0%nat = Some m →
    prop m "id" = prop md "id".

End RagTools.

(* ===================================================================== *)
(** ** A reference backend                                                *)
(* ===================================================================== *)

(** The vector index, the embedding service and the document library are
    external packages.  This module gives one implementation of their
    interfaces, following the description of the collaborators in the
    specification; the tools above never depend on it. *)
Module Reference.

Record Entry : Type := {
  e_id : string;
  e_vector : vector;
  e_metadata : Metadata
}.

Record Index : Type := {
  ix_dimension : Z;
  ix_metric : string;
  ix_entries : list Entry
}.

Record World : Type := {
  clock : list Z;
  indexes : gmap string Index;
  embedderUp : bool;
  storeUp : bool
}.

Definition setIndexes (w : World) (m : gmap string Index) : World :=
  {| clock := clock w; indexes := m;
     embedderUp := embedderUp w; storeUp := storeUp w |}.

(** The clock hands out its pending readings one by one. *)
Definition dateNow (w : World) : Z * World :=
  match clock w with
  | [] => (0, w)
  | t :: rest =>
      (t, {| clock := rest; indexes := indexes w;
             embedderUp := embedderUp w; storeUp := storeUp w |})
  end.

(** Modelled from the spec: the index operation [createIndex] of the
    external vector store.  "createIndex(name, dimension, metric):
    idempotent; if the index already exists this is a benign no-op,
    surfaced as a recoverable condition, never a hard failure."  The
    condition is surfaced as the error [IndexAlreadyExists]. *)
Definition createIndex (name : string) (dimension : Z) (metric : string)
    (w : World) : (Thrown + unit) * World :=
  match indexes w !! name with
  | Some _ => (inl (ErrorObj "IndexAlreadyExists"), w)
  | None =>
      (inr tt,
       setIndexes w (<[ name := {| ix_dimension := dimension;
                                  ix_metric := metric;
                                  ix_entries := [] |} ]> (indexes w)))
  end.

(** Last write wins: an entry with the same id is replaced in place, a new
    id is appended. *)
Fixpoint put (e : Entry) (l : list Entry) : list Entry :=
  match l with
  | [] => [e]
  | x :: l' => if String.eqb (e_id x) (e_id e) then e :: l' else x :: put e l'
  end.

Fixpoint zipEntries (ids : list string) (vectors : list vector)
    (metadata : list Metadata) : list Entry :=
  match ids, vectors, metadata with
  | i :: ids', v :: vectors', m :: metadata' =>
      {| e_id := i; e_vector := v; e_metadata := m |}
      :: zipEntries ids' vectors' metadata'
  | _, _, _ => []
  end.

(** Modelled from the spec: [upsert] of the external vector store.  "All
    three arrays must be equal length and every vector length must equal
    the index dimension, else DimensionMismatch; the batch is atomic." *)
Definition upsert (name : string) (vectors : list vector)
    (metadata : list Metadata) (ids : list string) (w : World)
    : (Thrown + unit) * World :=
  if negb (storeUp w) then (inl (ErrorObj "StoreWriteError"), w)
  else
    match indexes w !! name with
    | None => (inl (ErrorObj "StoreWriteError"), w)
    | Some ix =>
        if (length ids =? length vectors)%nat
           && (length ids =? length metadata)%nat
           && forallb (fun v => Z.of_nat (length v) =? ix_dimension ix) vectors
        then
          (inr tt,
           setIndexes w
             (<[ name := {| ix_dimension := ix_dimension ix;
                           ix_metric := ix_metric ix;
                           ix_entries :=
                             foldl (fun acc e => put e acc) (ix_entries ix)
                                   (zipEntries ids vectors metadata) |} ]>
                (indexes w)))
        else (inl (ErrorObj "DimensionMismatch"), w)
    end.

(** Modelled from the spec: the embedding service, "deterministic for a
    fixed model and input", of dimension 768, raising
    [EmbeddingServiceError] on upstream failure.  The embedding of a text
    is its length followed by ones. *)
Definition embedText (s : string) : vector :=
  ofZ (Z.of_nat (String.length s)) :: replicate 767 one.

Definition embedMany (values : list string) (w : World)
    : (Thrown + list vector) * World :=
  if embedderUp w then (inr (map embedText values), w)
  else (inl (ErrorObj "EmbeddingServiceError"), w).

Definition embed (value : string) (w : World) : (Thrown + vector) * World :=
  if embedderUp w then (inr (embedText value), w)
  else (inl (ErrorObj "EmbeddingServiceError"), w).

(** An entry passes the filter when it agrees with it on every key of the
    filter. *)
Definition matchesFilter (f : option Metadata) (e : Entry) : bool :=
  match f with
  | None => true
  | Some f =>
      forallb (fun kv => bool_decide (e_metadata e !! kv.1 = Some kv.2))
              (map_to_list f)
  end.

Definition scoreEntry (q : vector) (e : Entry) : QueryResult :=
  {| qr_id := e_id e;
     qr_score := div (SimpleStore.dotProduct q (e_vector e))
                     (mul (SimpleStore.magnitude q)
                          (SimpleStore.magnitude (e_vector e)));
     qr_metadata := Some (e_metadata e) |}.

(** Modelled from the spec: [query] of the external vector store: filter,
    score by cosine similarity, keep the scores above [minScore], sort by
    descending score (stable), return at most [topK]. *)
Definition storeQuery (args : QueryArgs) (w : World)
    : (Thrown + list QueryResult) * World :=
  if negb (storeUp w) then (inl (ErrorObj "StoreQueryError"), w)
  else
    match indexes w !! q_indexName args, q_queryVector args with
    | Some ix, Some q =>
        if Z.of_nat (length q) =? ix_dimension ix then
          let eligible := filter (fun e => matchesFilter (q_filter args) e) (ix_entries ix) in
          let scored := map (scoreEntry q) eligible in
          let kept := filter (fun r => gtb (qr_score r) (q_minScore args)) scored in
          let sorted := js_sort (fun a b => sub (qr_score b) (qr_score a)) kept in
          (inr (take (Z.to_nat (q_topK args)) sorted), w)
        else (inl (ErrorObj "DimensionMismatch"), w)
    | _, _ => (inl (ErrorObj "StoreQueryError"), w)
    end.

Definition backend : Backend World :=
  Build_Backend World dateNow (fun t => "T" +:+ pretty t)
                createIndex embedMany embed upsert storeQuery.

(** Modelled from the spec: the chunker behind [MDocument.chunk], as a
    sliding window.  "Constraints: overlap < size; violating this fails
    with InvalidChunkConfig.  If len(text) <= size, the result is a single
    chunk equal to the input; otherwise a fixed-size sliding window with
    the given overlap is used."  Every chunk inherits the metadata of the
    document. *)
Fixpoint window (fuel : nat) (size step : nat) (s : string) : list string :=
  match fuel with
  | O => [s]
  | S fuel' =>
      if (String.length s <=? size)%nat then [s]
      else String.substring 0 size s
           :: window fuel' size step
                (String.substring step (String.length s - step) s)
  end.

(** A document holds its parts: the whole text at first, the chunks after
    chunking. *)
Definition fromText (t : string) (m : Metadata) : list Chunk :=
  [ {| chunk_text := t; chunk_metadata := m |} ].

Definition splitPart (a : ChunkArgs) (part : Chunk) : list Chunk :=
  map (fun t => {| chunk_text := t; chunk_metadata := chunk_metadata part |})
      (window (String.length (chunk_text part)) (Z.to_nat (size a))
              (Z.to_nat (size a - overlap a)) (chunk_text part)).

Definition split (doc : list Chunk) (a : ChunkArgs)
    : Thrown + (list Chunk * list Chunk) :=
  if (0 <=? overlap a) && (overlap a <? size a) then
    let parts := concat (map (splitPart a) doc) in
    inr (parts, parts)
  else inl (ErrorObj "InvalidChunkConfig").

Definition docLib : DocLib :=
  Build_DocLib (list Chunk) fromText split (map chunk_metadata).

End Reference.

(* ===================================================================== *)
(** ** The mathematical quantities                                        *)
(* ===================================================================== *)

(** Dot product of two vectors, over the indices they share: the sum of
    the products, taken from left to right from 0, in binary64. *)
Definition dot (a b : vector) : num := foldl add zero (zip_with mul a b).

(** Sum of the squares of the components. *)
Definition sumsq (a : vector) : num := dot a a.

(** Euclidean norm [|a|]. *)
Definition norm (a : vector) : num := sqrt (sumsq a).

(** Cosine similarity as the specification words it:
    [dot(a,b) / (|a| * |b|)], each operation in binary64. *)
Definition cosine (a b : vector) : num := div (dot a b) (mul (norm a) (norm b)).



(** A vector is non-zero when one of its components is. *)
Definition nonzero (a : vector) : Prop := ∃ x, x ∈ a ∧ is_zero x = false.

(** A vector of zero magnitude: all components are zero. *)
Definition allzero (a : vector) : Prop := ∀ x, x ∈ a → is_zero x = true.

(** The components are binary64 numbers other than NaN and the
    infinities, as the numbers of a JSON document are. *)
Definition wellFormed (a : vector) : Prop :=
  ∀ x, x ∈ a → valid x = true ∧ is_finite x = true.

(** [part] occurs inside [whole]. *)
Definition embeds (part whole : string) : Prop :=
  ∃ pre post, whole = pre +:+ part +:+ post.

(** [part] occurs inside [whole], as a test. *)
Fixpoint occurs (part whole : string) : bool :=
  String.prefix part whole
  || match whole with
     | EmptyString => false
     | String _ rest => occurs part rest
     end.


#[global] Instance num_eq_dec : EqDecision num.
Proof. solve_decision. Defined.

(* ===================================================================== *)
(** ** Concrete stores used in the examples                               *)
(* ===================================================================== *)

Module Scenario.
Import SimpleStore.

Definition doc (i : string) (v : vector) : Doc :=
  {| doc_id := i; doc_embedding := Some v; doc_metadata := ∅ |}.

Definition entry (i : string) (s : num) : VectorResult :=
  {| id := i; score := s; metadata := ∅ |}.

(** The query vector of the examples. *)
Definition east : vector := [ofZ 1; ofZ 0].

(** Three documents, the middle one with a zero embedding. *)
Definition withZero : list Doc :=
  [ doc "a" [ofZ 3; ofZ 4]; doc "z" [ofZ 0; ofZ 0]; doc "b" [ofZ 1; ofZ 0] ].

(** Two documents with non-zero embeddings. *)
Definition allDefined : list Doc :=
  [ doc "a" [ofZ 3; ofZ 4]; doc "b" [ofZ 1; ofZ 0] ].

(** A zero embedding stored ahead of a perfect match. *)
Definition zeroFirst : list Doc :=
  [ doc "z" [ofZ 0; ofZ 0]; doc "b" [ofZ 1; ofZ 0] ].

(** A world with a working embedder and store, no index yet, and a clock
    that stays on one millisecond. *)
Definition frozenClock : Reference.World :=
  {| Reference.clock := replicate 16 1700000000000;
     Reference.indexes := ∅;
     Reference.embedderUp := true;
     Reference.storeUp := true |}.

(** The same world with a clock that advances. *)
Definition tickingClock : Reference.World :=
  {| Reference.clock := (λ n : nat, 1700000000000 + Z.of_nat n) <$> seq 0 16;
     Reference.indexes := ∅;
     Reference.embedderUp := true;
     Reference.storeUp := true |}.

(** The embedding service is down. *)
Definition embedderDown : Reference.World :=
  {| Reference.clock := replicate 16 1700000000000;
     Reference.indexes := ∅;
     Reference.embedderUp := false;
     Reference.storeUp := true |}.

(** The index exists and is empty. *)
Definition emptyIndex : Reference.World :=
  {| Reference.clock := replicate 16 1700000000000;
     Reference.indexes :=
       {[ RagTools.indexName :=
            {| Reference.ix_dimension := 768;
               Reference.ix_metric := "cosine";
               Reference.ix_entries := [] |} ]};
     Reference.embedderUp := true;
     Reference.storeUp := true |}.

(** The index exists, the store is down. *)
Definition storeDown : Reference.World :=
  {| Reference.clock := replicate 16 1700000000000;
     Reference.indexes := Reference.indexes emptyIndex;
     Reference.embedderUp := true;
     Reference.storeUp := false |}.

Definition addText (t : string) : RagTools.AddDocumentInput :=
  {| RagTools.text := t; RagTools.in_metadata := None;
     RagTools.chunkSize := None; RagTools.chunkOverlap := None |}.

(** An ingestion request that carries its own document id. *)
Definition addWithId (t : string) (i : string) : RagTools.AddDocumentInput :=
  {| RagTools.text := t;
     RagTools.in_metadata := Some {[ "id" := JStr i ]};
     RagTools.chunkSize := None; RagTools.chunkOverlap := None |}.

Definition ask (q : string) : RagTools.SearchInput :=
  {| RagTools.query := q; RagTools.maxResults := None;
     RagTools.minScore := None; RagTools.in_filter := None |}.

End Scenario.

(* ===================================================================== *)
(** ** Further code: sample data, routes, actions                         *)
(* ===================================================================== *)

(** The entry that [SimpleVectorStore.addDocuments] stores for position [i]
    of a batch. *)
Definition storedAs (texts : list string) (embeddings : list vector)
    (metadata : list Metadata) (i : nat) (d : SimpleStore.Doc) : Prop :=
  SimpleStore.doc_embedding d = embeddings !! i
  ∧ (∃ t : Z, SimpleStore.doc_id d
              = "doc-" +:+ pretty t +:+ "-" +:+ pretty (Z.of_nat i))
  ∧ SimpleStore.doc_metadata d
    = default ∅ (metadata !! i)
      ∪ {[ "text" := default JUndefined (JStr <$> texts !! i) ]}.

(** *** Sample data of the in-memory variant (rag-agent.ts) *)
Module SimpleSamples.
Import SimpleStore.

Definition overview : string :=
  "Mastra is a TypeScript-first framework for building AI agents, workflows, and integrations. " +:+ nl +:+
  "   It provides a unified interface for working with different AI models, vector databases, and external APIs." +:+ nl +:+
  "   Key features include type-safe agents, workflow orchestration, and built-in RAG capabilities.".

Definition ragGuide : string :=
  "RAG (Retrieval-Augmented Generation) in Mastra allows you to enhance LLM outputs by incorporating " +:+ nl +:+
  "   relevant context from your own data sources. The system supports multiple vector stores including " +:+ nl +:+
  "   PostgreSQL with pgvector, Pinecone, Qdrant, and others. You can chunk documents using various " +:+ nl +:+
  "   strategies and generate embeddings with different models.".

Definition copilotKit : string :=
  "CopilotKit is a React framework for building AI-powered applications. It provides components " +:+ nl +:+
  "   like CopilotChat for conversational interfaces and hooks for integrating AI capabilities into " +:+ nl +:+
  "   React applications. AG-UI serves as a bridge between Mastra agents and CopilotKit frontends.".

Definition agUi : string :=
  "AG-UI is Mastra's protocol for connecting AI agents to frontend applications. It enables " +:+ nl +:+
  "   seamless integration between Mastra agents and UI frameworks like CopilotKit. AG-UI handles " +:+ nl +:+
  "   the communication between agents and frontends, allowing for real-time chat interfaces and " +:+ nl +:+
  "   AI-powered user interactions.".

(** [sampleDocuments] *)
Definition sampleDocuments : list string := [overview; ragGuide; copilotKit; agUi].

(** The metadata array passed along with the samples. *)
Definition sampleMetadata : list Metadata :=
  [ <[ "category" := JStr "framework" ]> {[ "source" := JStr "mastra-overview.md" ]};
    <[ "category" := JStr "rag" ]> {[ "source" := JStr "rag-guide.md" ]};
    <[ "category" := JStr "frontend" ]> {[ "source" := JStr "copilotkit-integration.md" ]};
    <[ "category" := JStr "integration" ]> {[ "source" := JStr "agui-protocol.md" ]} ].

(** [initializeSampleData()]: the catch block logs and returns. *)
Definition initializeSampleData {W} (B : Backend W) (L : DocLib)
    : M (State W) unit :=
  try_catch
    (addDocumentsToKnowledgeBase B L sampleDocuments (Some sampleMetadata))
    (fun error => ret tt).

End SimpleSamples.

(** *** Sample data of the variant over the external index *)
Module ToolSamples.
Import RagTools.

Definition overview : string :=
  "Mastra is a TypeScript-first framework for building AI agents, workflows, and integrations." +:+ nl +:+
  "   It provides a unified interface for working with different AI models, vector databases, and external APIs." +:+ nl +:+
  "   Key features include type-safe agents, workflow orchestration, and built-in RAG capabilities.".

Definition ragGuide : string :=
  "RAG (Retrieval-Augmented Generation) in Mastra allows you to enhance LLM outputs by incorporating" +:+ nl +:+
  "   relevant context from your own data sources. The system supports multiple vector stores including " +:+ nl +:+
  "   PostgreSQL with pgvector, Pinecone, Qdrant, and others. You can chunk documents using various " +:+ nl +:+
  "   strategies and generate embeddings with different models.".

Definition copilotKit : string :=
  "CopilotKit is a React framework for building AI-powered applications. It provides components" +:+ nl +:+
  "   like CopilotChat for conversational interfaces and hooks for integrating AI capabilities into " +:+ nl +:+
  "   React applications. AG-UI serves as a bridge between Mastra agents and CopilotKit frontends.".

Definition agUi : string :=
  "AG-UI is Mastra's protocol for connecting AI agents to frontend applications. It enables" +:+ nl +:+
  "   seamless integration between Mastra agents and UI frameworks like CopilotKit. AG-UI handles " +:+ nl +:+
  "   the communication between agents and frontends, allowing for real-time chat interfaces and " +:+ nl +:+
  "   AI-powered user interactions.".

Definition sampleOf (source category id : string) : Metadata :=
  <[ "id" := JStr id ]>
  (<[ "category" := JStr category ]> {[ "source" := JStr source ]}).

(** [sampleDocuments]: a text and its metadata, which carries the id. *)
Definition sampleDocuments : list (string * Metadata) :=
  [ (overview, sampleOf "mastra-overview.md" "framework" "doc-sample-1");
    (ragGuide, sampleOf "rag-guide.md" "rag" "doc-sample-2");
    (copilotKit, sampleOf "copilotkit-integration.md" "frontend" "doc-sample-3");
    (agUi, sampleOf "agui-protocol.md" "integration" "doc-sample-4") ].

(** The argument of [document.chunk] for the samples. *)
Definition sampleChunkArgs : ChunkArgs :=
  {| strategy := "recursive"; size := 512; overlap := 50;
     separator := Some (nl +:+ nl) |}.

(** [for (const x of xs) { ... }] *)
Fixpoint forEach {St A} (body : A -> M St unit) (l : list A) : M St unit :=
  match l with
  | [] => ret tt
  | x :: l' => _ <- body x ;; forEach body l'
  end.

Section Samples.
Context {W : Type} (B : Backend W) (L : DocLib).

(** The body of the loop of [initializeSampleData]: one sample, inside its
    own try/catch. *)
Definition processSample (sampleDoc : string * Metadata) : M (Env W) unit :=
  try_catch
    (addedAt <- isoNow B ;;
     let document :=
       fromText L sampleDoc.1 (<[ "addedAt" := JStr addedAt ]> sampleDoc.2) in
     r <- lift_sum (chunk L document sampleChunkArgs) ;;
     let chunks := snd r in
     let chunkTexts := map chunk_text chunks in
     documentId <- chooseDocumentId B (getMetadata L (fst r)) ;;
     chunkMetadata <-
       mapM (fun c index =>
               addedAt <- isoNow B ;;
               ret (chunkRecord documentId c index addedAt))
            chunks ;;
     embeddings <- call (EmbedMany chunkTexts) RVectors (embedMany B chunkTexts) ;;
     let ids := imap (fun index _ => chunkId documentId index) chunks in
     _ <- call (Upsert indexName embeddings chunkMetadata ids) (fun _ => RUnit)
               (upsert B indexName embeddings chunkMetadata ids) ;;
     ret tt)
    (fun error => ret tt).

(** The loop over a list of samples. *)
Definition processSamples (samples : list (string * Metadata)) : M (Env W) unit :=
  forEach processSample samples.

(** [initializeSampleData()] *)
Definition initializeSampleData : M (Env W) unit :=
  _ <- ensureIndex B ;; processSamples sampleDocuments.

(** The document id of a sample after chunking; [t] is the reading of the
    clock used when the document reports no id. *)
Definition chosenId (doc' : MDocument L) (t : Z) : JsVal :=
  let first :=
    match getMetadata L doc' !! 0%nat with
    | Some m => prop m "id"
    | None => JUndefined
    end in
  if truthy first then first else JStr ("doc-" +:+ pretty t).

(** The document a sample is turned into; [addedAt] is the time stamp. *)
Definition sampleDocument (sampleDoc : string * Metadata) (addedAt : string)
    : MDocument L :=
  fromText L sampleDoc.1 (<[ "addedAt" := JStr addedAt ]> sampleDoc.2).

(** The events one sample can add: nothing when chunking throws, else the
    embedding call, followed by the upsert when the embedding returned. *)
Inductive SampleRun (sampleDoc : string * Metadata) : list Event -> Prop :=
| sample_chunk_failed addedAt e :
    chunk L (sampleDocument sampleDoc addedAt) sampleChunkArgs = inl e ->
    SampleRun sampleDoc []
| sample_embed_failed addedAt doc' chunks e :
    chunk L (sampleDocument sampleDoc addedAt) sampleChunkArgs
    = inr (doc', chunks) ->
    SampleRun sampleDoc [ (EmbedMany (map chunk_text chunks), Threw e) ]
| sample_upserted addedAt doc' chunks t vs mds o :
    chunk L (sampleDocument sampleDoc addedAt) sampleChunkArgs
    = inr (doc', chunks) ->
    length mds = length chunks ->
    SampleRun sampleDoc
      [ (EmbedMany (map chunk_text chunks), Returned (RVectors vs));
        (Upsert indexName vs mds
           (imap (fun index _ => chunkId (chosenId doc' t) index) chunks), o) ].

End Samples.

(** The document library reports one metadata record per chunk. *)
Definition describesChunks (L : DocLib) : Prop :=
  ∀ text md args doc' chunks,
    chunk L (fromText L text md) args = inr (doc', chunks) →
    length (getMetadata L doc') = length chunks.

End ToolSamples.

(* ===================================================================== *)
(** ** The HTTP routes and the chat actions                                *)
(* ===================================================================== *)

(** The routes hand a request to the agent and wrap its answer; the chat
    actions post to the routes and pick one field of the answer.  The
    language model behind the agent is external: it is a field of the
    world, and every use of it is logged. *)
Module Routes.

(** The JSON values that travel through the routes.  [IValue] stands for
    any value without a constructor of its own ([null], a fraction, an
    array, a non-empty object). *)
Inductive Item (V : Type) : Type :=
| IUndefined
| IBool (b : bool)
| INumber (n : Z)
| IString (s : string)
| IEmptyObject
| IValue (v : V).
Arguments IUndefined {V}.
Arguments IBool {V} b.
Arguments INumber {V} n.
Arguments IString {V} s.
Arguments IEmptyObject {V}.
Arguments IValue {V} v.

(** What the code needs of the remaining values, and the quoting of
    [JSON.stringify] for strings. *)
Record Json (V : Type) : Type := {
  valueTruthy : V -> bool;
  valueToString : V -> string;
  valueStringify : V -> string;
  quoted : string -> string
}.
Arguments valueTruthy {V} _ _.
Arguments valueToString {V} _ _.
Arguments valueStringify {V} _ _.
Arguments quoted {V} _ _.

(** An object literal, key by key. *)
Definition Object (V : Type) : Type := list (string * Item V).

(** [o.k]: the value of the first entry under [k], else [undefined]. *)
Fixpoint field {V} (o : Object V) (k : string) : Item V :=
  match o with
  | [] => IUndefined
  | (k', v) :: o' => if String.eqb k' k then v else field o' k
  end.

(** What [await x.json()] gives: it rejects, or resolves to [null], or to
    a value that is read through its properties. *)
Definition Parsed (V : Type) : Type := Thrown + option (Object V).

(** Reading a property of the parsed value; reading one of [null] throws a
    [TypeError]. *)
Definition properties {V} (p : Parsed V) : Thrown + Object V :=
  match p with
  | inl e => inl e
  | inr None => inl (ErrorObj "Cannot read properties of null")
  | inr (Some o) => inr o
  end.

(** [NextResponse.json(payload, { status })] *)
Record Response (V : Type) : Type := {
  status : Z;
  payload : Object V
}.
Arguments status {V} _.
Arguments payload {V} _.

Definition json {V} (o : Object V) (st : Z) : Response V :=
  {| status := st; payload := o |}.

(** The uses of the agent registry. *)
Inductive Invocation : Type :=
| GetAgent (name : string)
| Generate (role content : string).

(** [mastra]: the registry of agents; [generate] gives the [text] of the
    result, or nothing when the result is nullish. *)
Record Mastra (V W : Type) : Type := {
  Agent : Type;
  getAgent : string -> W -> (Thrown + option Agent) * W;
  generate : Agent -> string -> string -> W -> (Thrown + option (Item V)) * W
}.
Arguments Agent {V W} _.
Arguments getAgent {V W} _ _ _.
Arguments generate {V W} _ _ _ _ _.

Record Server (W : Type) : Type := {
  app : W;
  log : list Invocation
}.
Arguments app {W} _.
Arguments log {W} _.

Section Handlers.
Context {V : Type} (J : Json V).

Definition truthyItem (i : Item V) : bool :=
  match i with
  | IUndefined => false
  | IBool b => b
  | INumber n => negb (n =? 0)
  | IString s => negb (String.eqb s "")
  | IEmptyObject => true
  | IValue v => valueTruthy J v
  end.

(** The value inside a template literal; integers print in decimal. *)
Definition showItem (i : Item V) : string :=
  match i with
  | IUndefined => "undefined"
  | IBool b => if b then "true" else "false"
  | INumber n => pretty n
  | IString s => s
  | IEmptyObject => "[object Object]"
  | IValue v => valueToString J v
  end.

(** [`${JSON.stringify(i)}`] *)
Definition stringifyItem (i : Item V) : string :=
  match i with
  | IUndefined => "undefined"
  | IBool b => if b then "true" else "false"
  | INumber n => pretty n
  | IString s => quoted J s
  | IEmptyObject => "{}"
  | IValue v => valueStringify J v
  end.

(** [a || b] *)
Definition orItem (a b : Item V) : Item V := if truthyItem a then a else b.

(** [const { k = d } = ...] *)
Definition orDefault (a d : Item V) : Item V :=
  match a with IUndefined => d | _ => a end.

Section Server.
Context {W : Type} (Ms : Mastra V W).

(** [mastra.getAgent(name)] *)
Definition lookupAgent (name : string) : M (Server W) (option (Agent Ms)) :=
  fun s =>
    let r := getAgent Ms name (app s) in
    (r.1, {| app := r.2; log := log s ++ [GetAgent name] |}).

(** [(await agent.generate([{ role, content }])).text] *)
Definition generateText (agent : Agent Ms) (role content : string)
    : M (Server W) (Item V) :=
  fun s =>
    let r := generate Ms agent role content (app s) in
    (match r.1 with
     | inl e => inl e
     | inr None => inl (ErrorObj "Cannot read properties of undefined")
     | inr (Some text) => inr text
     end,
     {| app := r.2; log := log s ++ [Generate role content] |}).

Definition addDocumentPrompt (text metadata : Item V) : string :=
  "Use the addDocumentTool to process and add the following document to the knowledge base. Document text: "
  +:+ dquote +:+ showItem text +:+ dquote
  +:+ ". Associated metadata: " +:+ stringifyItem metadata +:+ ".".

(** [POST] of the add-document route. *)
Definition addDocumentPOST (req : Parsed V) : M (Server W) (Response V) :=
  try_catch
    (body <- lift_sum (properties req) ;;
     let text := field body "text" in
     let metadata := orDefault (field body "metadata") IEmptyObject in
     if negb (truthyItem text) then
       ret (json [("error", IString "Text is required")] 400)
     else
       ragAgent <- lookupAgent "ragAgent" ;;
       match ragAgent with
       | None => ret (json [("error", IString "RAG agent not found")] 500)
       | Some agent =>
           answer <- generateText agent "user" (addDocumentPrompt text metadata) ;;
           ret (json [ ("success", IBool true);
                       ("message", answer);
                       ("text", text);
                       ("metadata", metadata) ] 200)
       end)
    (fun error =>
       ret (json [("error", IString "Failed to add document to knowledge base")]
                 500)).

Definition ragSearchPrompt (query maxResults : Item V) : string :=
  "Use the ragSearchTool to find information relevant to the following query: "
  +:+ dquote +:+ showItem query +:+ dquote
  +:+ ". Please return up to " +:+ showItem maxResults +:+ " results.".

(** [POST] of the rag-search route. *)
Definition ragSearchPOST (req : Parsed V) : M (Server W) (Response V) :=
  try_catch
    (body <- lift_sum (properties req) ;;
     let query := field body "query" in
     let maxResults := orDefault (field body "maxResults") (INumber 5) in
     if negb (truthyItem query) then
       ret (json [("error", IString "Query is required")] 400)
     else
       ragAgent <- lookupAgent "ragAgent" ;;
       match ragAgent with
       | None => ret (json [("error", IString "RAG agent not found")] 500)
       | Some agent =>
           answer <- generateText agent "user" (ragSearchPrompt query maxResults) ;;
           ret (json [ ("success", IBool true);
                       ("result", answer);
                       ("query", query);
                       ("maxResults", maxResults) ] 200)
       end)
    (fun error =>
       ret (json [("error", IString "Failed to search knowledge base")] 500)).

(** The four ways a route answers: the input is refused, the agent is
    missing, something threw, or the agent answered. *)
Inductive Answered (required missing failed : string)
    (respond : Object V -> Item V -> Object V) (prompt : Object V -> string)
    (key : string) (req : Parsed V) (s : Server W)
    : Response V -> Server W -> Prop :=
| answered_refused body :
    properties req = inr body ->
    truthyItem (field body key) = false ->
    Answered required missing failed respond prompt key req s
      (json [("error", IString required)] 400) s
| answered_missing body s' :
    properties req = inr body ->
    truthyItem (field body key) = true ->
    log s' = log s ++ [GetAgent "ragAgent"] ->
    Answered required missing failed respond prompt key req s
      (json [("error", IString missing)] 500) s'
| answered_failed s' :
    (log s' = log s
     \/ log s' = log s ++ [GetAgent "ragAgent"]
     \/ exists body, properties req = inr body
               /\ truthyItem (field body key) = true
               /\ log s' = log s ++ [GetAgent "ragAgent";
                                    Generate "user" (prompt body)]) ->
    Answered required missing failed respond prompt key req s
      (json [("error", IString failed)] 500) s'
| answered_ok body answer s' :
    properties req = inr body ->
    truthyItem (field body key) = true ->
    log s' = log s ++ [GetAgent "ragAgent"; Generate "user" (prompt body)] ->
    Answered required missing failed respond prompt key req s
      (json (respond body answer) 200) s'.

End Server.

Section Actions.
Context {St : Type}.

(** [fetch(url, { method: 'POST', body: JSON.stringify(body) })] followed
    by [response.json()]: the call throws when the request fails, and gives
    what parsing the body of the response gives. *)
Definition Fetch : Type := string -> Object V -> M St (Parsed V).

Context (fetch : Fetch).

(** The common shape of the four handlers: post, read one property of the
    answer, fall back to a fixed text; any throw gives another fixed text. *)
Definition postAndPick (url : string) (body : Object V) (key : string)
    (fallback failure : string) : M St (Item V) :=
  try_catch
    (response <- fetch url body ;;
     result <- lift_sum (properties response) ;;
     ret (orItem (field result key) (IString fallback)))
    (fun error => ret (IString failure)).

(** The handlers of the chat component. *)
Definition searchAction (query maxResults : Item V) : M St (Item V) :=
  let maxResults := orDefault maxResults (INumber 5) in
  postAndPick "/api/rag-search"
    [("query", query); ("maxResults", maxResults)]
    "relevantContext" "No relevant information found."
    "Error occurred while searching the knowledge base.".

Definition addAction (text metadata : Item V) : M St (Item V) :=
  let metadata := orDefault metadata IEmptyObject in
  postAndPick "/api/add-document"
    [("text", text); ("metadata", metadata)]
    "message" "Document added successfully."
    "Error occurred while adding document to knowledge base.".

(** [process.env.NEXTAUTH_URL || 'http://localhost:3000'] *)
Definition origin (NEXTAUTH_URL : option string) : string :=
  match NEXTAUTH_URL with
  | Some u => if String.eqb u "" then "http://localhost:3000" else u
  | None => "http://localhost:3000"
  end.

(** The handlers of the runtime route. *)
Definition search_knowledge_base (NEXTAUTH_URL : option string)
    (query maxResults : Item V) : M St (Item V) :=
  let maxResults := orDefault maxResults (INumber 5) in
  postAndPick (origin NEXTAUTH_URL +:+ "/api/rag-search")
    [("query", query); ("maxResults", maxResults)]
    "result" "No results found" "Error searching knowledge base".

Definition add_document (NEXTAUTH_URL : option string)
    (text metadata : Item V) : M St (Item V) :=
  let metadata := orDefault metadata IEmptyObject in
  postAndPick (origin NEXTAUTH_URL +:+ "/api/add-document")
    [("text", text); ("metadata", metadata)]
    "message" "Document added successfully"
    "Error adding document to knowledge base".

End Actions.

(** A request of an action served by a route of this application: the
    route receives the object that was posted and the action the payload
    of the response. *)
Definition servedBy {W} (route : Parsed V -> M (Server W) (Response V))
    : @Fetch (Server W) :=
  fun _ body =>
    response <- route (inr (Some body)) ;;
    ret (inr (Some (payload response))).

End Handlers.

(** The invocations of the language model in a log. *)
Definition isGenerate (i : Invocation) : bool :=
  match i with Generate _ _ => true | GetAgent _ => false end.

(** Strings that need no escape, and no other values. *)
Definition plainJson : Json Empty_set :=
  {| valueTruthy := fun v : Empty_set => match v with end;
     valueToString := fun v : Empty_set => match v with end;
     valueStringify := fun v : Empty_set => match v with end;
     quoted := fun s => dquote +:+ s +:+ dquote |}.

(** A registry with one agent, which answers every prompt with the same
    text. *)
Definition echoing (answer : string) : Mastra Empty_set unit :=
  {| Agent := unit;
     getAgent := fun name w =>
       (inr (if String.eqb name "ragAgent" then Some tt else None), w);
     generate := fun _ _ _ w => (inr (Some (IString answer)), w) |}.

Definition idle : Server unit := {| app := tt; log := [] |}.

End Routes.


(* ===================================================================== *)
(** ** Inputs at the limits of binary64, and failing collaborators        *)
(* ===================================================================== *)

Module Extremes.
Import SimpleStore.


(** [2^-600]: its square underflows to 0. *)
Definition tiny : vector := [scaled 1 (-600)].

(** [2^300] *)
Definition large : vector := [scaled 1 300].

(** A text of 45 characters, cut into windows of 16 with an overlap
    of 4. *)
Definition longInput : RagTools.AddDocumentInput :=
  {| RagTools.text := "Mastra is a framework for building AI agents.";
     RagTools.in_metadata := None;
     RagTools.chunkSize := Some 16; RagTools.chunkOverlap := Some 4 |}.

(** An index whose [query] throws a value that is not an [Error]:
    [throw 'quota exceeded']. *)
Definition rejecting : Backend Reference.World :=
  Build_Backend Reference.World
    (dateNow Reference.backend) (toISOString Reference.backend)
    (createIndex Reference.backend) (embedMany Reference.backend)
    (embed Reference.backend) (upsert Reference.backend)
    (fun _ w => (inl (NonError (JStr "quota exceeded")), w)).

End Extremes.

(* ===================================================================== *)
(** ** Lemmas on binary64 numbers                                         *)
(* ===================================================================== *)

Section Binary64.

Lemma tenth_nearest : tenth = div (ofZ 1) (ofZ 10).
Proof. reflexivity. Qed.

Lemma half_nearest : half = div (ofZ 1) (ofZ 2).
Proof. reflexivity. Qed.

Lemma sevenTenths_nearest : sevenTenths = div (ofZ 7) (ofZ 10).
Proof. reflexivity. Qed.

Lemma one_ofZ : one = ofZ 1.
Proof. reflexivity. Qed.

Lemma fexp_eq e : fexp prec emax e = Z.max (e - 53) (-1074).
Proof. reflexivity. Qed.

Lemma fexp_mono a b : a ≤ b → fexp prec emax a ≤ fexp prec emax b.
Proof. rewrite !fexp_eq. lia. Qed.

Lemma digits2_size m : digits2_pos m = Pos.size m.
Proof. induction m as [m IH|m IH|]; simpl; by rewrite ?IH. Qed.

Lemma Zdigits2_log2 m : 0 < m → Zdigits2 m = Z.log2 m + 1.
Proof.
  destruct m as [|m|m]; [lia| |lia]. intros _. simpl. rewrite digits2_size.
  destruct m; simpl; lia.
Qed.

Lemma Zdigits2_nonneg m : 0 ≤ Zdigits2 m.
Proof. destruct m; simpl; lia. Qed.

Lemma Zdigits2_shiftr m k :
  0 ≤ m → 0 ≤ k → Zdigits2 (Z.shiftr m k) = Z.max 0 (Zdigits2 m - k).
Proof.
  intros Hm Hk. destruct (Z.eq_dec m 0) as [->|Hne].
  { rewrite Z.shiftr_0_l. simpl. lia. }
  assert (0 < m) as Hpos by lia.
  rewrite (Zdigits2_log2 m Hpos).
  pose proof (Z.log2_nonneg m).
  destruct (Z_lt_le_dec (Z.log2 m) k) as [Hlt|Hle].
  - rewrite Z.shiftr_eq_0 by lia. simpl. lia.
  - assert (0 < Z.shiftr m k) as Hs.
    { pose proof (proj2 (Z.shiftr_nonneg m k) Hm).
      assert (Z.shiftr m k ≠ 0); [|lia].
      rewrite Z.shiftr_eq_0_iff. lia. }
    rewrite (Zdigits2_log2 _ Hs), Z.log2_shiftr by done. lia.
Qed.

Lemma Zdigits2_mono a b : 0 ≤ a ≤ b → Zdigits2 a ≤ Zdigits2 b.
Proof.
  intros [Ha Hab]. destruct (Z.eq_dec a 0) as [->|Hne].
  { apply Zdigits2_nonneg. }
  rewrite !Zdigits2_log2 by lia. pose proof (Z.log2_le_mono a b Hab). lia.
Qed.

(** One step of the shift to the right halves the mantissa. *)
Lemma shr_1_m mrs : 0 ≤ shr_m mrs → shr_m (shr_1 mrs) = Z.div2 (shr_m mrs).
Proof. destruct mrs as [[|[m|m|]|m] r s]; simpl; done || lia. Qed.

Lemma iter_pos_shr_m p mrs :
  0 ≤ shr_m mrs →
  shr_m (SpecFloat.iter_pos shr_1 p mrs) = Z.shiftr (shr_m mrs) (Z.pos p).
Proof.
  revert mrs. induction p as [p IH|p IH|]; intros mrs Hm;
    cbn [SpecFloat.iter_pos].
  - assert (0 ≤ shr_m (shr_1 mrs)) as H1.
    { rewrite shr_1_m by done. by rewrite Z.div2_nonneg. }
    assert (0 ≤ shr_m (SpecFloat.iter_pos shr_1 p (shr_1 mrs))) as H2.
    { rewrite IH by done. by apply Z.shiftr_nonneg. }
    rewrite IH, IH, shr_1_m by done.
    rewrite Z.div2_spec, !Z.shiftr_shiftr by lia. f_equal. lia.
  - assert (0 ≤ shr_m (SpecFloat.iter_pos shr_1 p mrs)) as H2.
    { rewrite IH by done. by apply Z.shiftr_nonneg. }
    rewrite IH, IH by done. rewrite Z.shiftr_shiftr by lia. f_equal. lia.
  - rewrite shr_1_m by done. by rewrite Z.div2_spec.
Qed.

Lemma shr_record_of_loc_m m l : shr_m (shr_record_of_loc m l) = m.
Proof. by destruct l as [|[]]. Qed.

(** The mantissa and the exponent after the shift to the exponent of the
    format. *)
Lemma shr_fexp_spec m e l :
  0 ≤ m →
  let n := Z.max 0 (fexp prec emax (Zdigits2 m + e) - e) in
  shr_m (shr_fexp prec emax m e l).1 = Z.shiftr m n
  ∧ (shr_fexp prec emax m e l).2 = e + n.
Proof.
  intros Hm n. unfold shr_fexp, shr. subst n.
  destruct (fexp prec emax (Zdigits2 m + e) - e) as [|p|p] eqn:Hn;
    cbn [fst snd].
  - rewrite shr_record_of_loc_m, Z.shiftr_0_r. split; [done|lia].
  - rewrite iter_pos_shr_m, shr_record_of_loc_m
      by (by rewrite shr_record_of_loc_m).
    split; [f_equal; lia|lia].
  - rewrite shr_record_of_loc_m.
    replace (Z.max 0 (Z.neg p)) with 0 by lia.
    rewrite Z.shiftr_0_r. split; [done|lia].
Qed.

Lemma round_nearest_even_cases m l :
  round_nearest_even m l = m ∨ round_nearest_even m l = m + 1.
Proof. destruct l as [|[]]; simpl; auto. destruct (Z.even m); auto. Qed.



(** Rounding at an exponent that is not above the exponent of the format
    gives a number of the format. *)
Lemma binary_round_aux_valid s m e l :
  0 ≤ m → e ≤ fexp prec emax (Zdigits2 m + e) →
  valid (binary_round_aux prec emax s m e l) = true.
Proof.
  intros Hm He. unfold binary_round_aux.
  destruct (shr_fexp_spec m e l) as [H1 H1e]; [lia|].
  destruct (shr_fexp prec emax m e l) as [mrs' e1]. cbn [fst snd] in H1, H1e.
  set (r := round_nearest_even (shr_m mrs') (loc_of_shr_record mrs')).
  set (n1 := fexp prec emax (Zdigits2 m + e) - e) in *.
  assert (0 ≤ n1) as Hn1 by (subst n1; lia).
  replace (Z.max 0 n1) with n1 in * by lia.
  assert (0 ≤ shr_m mrs') as Hpos1 by (rewrite H1; by apply Z.shiftr_nonneg).
  assert (shr_m mrs' ≤ r ≤ shr_m mrs' + 1) as Hr.
  { subst r.
    destruct (round_nearest_even_cases (shr_m mrs') (loc_of_shr_record mrs'))
      as [-> | ->]; lia. }
  destruct (shr_fexp_spec r e1 loc_Exact) as [H2 H2e]; [lia|].
  destruct (shr_fexp prec emax r e1 loc_Exact) as [mrs'' e2].
  cbn [fst snd] in H2, H2e.
  destruct (shr_m mrs'') as [|m2|m2] eqn:Hm2; [done| |done].
  destruct (e2 <=? emax - prec) eqn:Hle; [|done].
  unfold valid, valid_binary, bounded. rewrite Hle, andb_true_r.
  unfold canonical_mantissa. apply Z.eqb_eq.
  assert (Zdigits2 m + e ≤ Zdigits2 r + e1) as Hd.
  { pose proof (Zdigits2_mono (shr_m mrs') r ltac:(lia)) as Hmono.
    rewrite H1, Zdigits2_shiftr in Hmono by lia. lia. }
  pose proof (fexp_mono _ _ Hd) as Hf.
  set (n2 := fexp prec emax (Zdigits2 r + e1) - e1) in *.
  assert (0 ≤ n2) as Hn2 by (subst n2; lia).
  replace (Z.max 0 n2) with n2 in * by lia.
  change (Z.pos (digits2_pos m2)) with (Zdigits2 (Z.pos m2)).
  rewrite H2, Zdigits2_shiftr by lia.
  assert (0 < Zdigits2 (Z.shiftr r n2)) as Hpos.
  { rewrite <-H2. simpl. lia. }
  rewrite Zdigits2_shiftr in Hpos by lia.
  replace (Z.max 0 (Zdigits2 r - n2) + e2) with (Zdigits2 r + e1) by lia.
  lia.
Qed.



(** The quotient that the division hands to the rounding sits at an
    exponent that is not above the exponent of the format. *)
Lemma SFdiv_core_binary_exponent m1 e1 m2 e2 :
  0 < m1 → 0 < m2 →
  let '(q, e', _) := SFdiv_core_binary prec emax m1 e1 m2 e2 in
  0 ≤ q ∧ e' ≤ fexp prec emax (Zdigits2 q + e').
Proof.
  intros H1 H2. unfold SFdiv_core_binary.
  remember (Zdigits2 m1 + e1 - (Zdigits2 m2 + e2)) as D eqn:HD.
  remember (Z.min (fexp prec emax D) (e1 - e2)) as e' eqn:He'.
  remember (e1 - e2 - e') as s eqn:Hsdef.
  assert (0 ≤ s) as Hs by lia.
  remember (match s with Z.pos _ => Z.shiftl m1 s | 0 => m1 | Z.neg _ => 0 end)
    as m' eqn:Hm0.
  assert (m' = m1 * 2 ^ s) as Hm'.
  { subst m'. destruct s as [|p|p] eqn:Es; [simpl; lia| |lia].
    by rewrite Z.shiftl_mul_pow2 by lia. }
  clear Hm0.
  pose proof (Z.div_eucl_eq m' m2 ltac:(lia)) as Heq.
  pose proof (Z.mod_pos_bound m' m2 H2) as Hmod.
  unfold Z.modulo in Hmod.
  destruct (Z.div_eucl m' m2) as [q r].
  assert (0 < 2 ^ s) as Hpow by (apply Z.pow_pos_nonneg; lia).
  assert (0 ≤ q) as Hq by nia.
  split; [done|].
  pose proof (Z.log2_spec m1 H1) as [L1 _].
  pose proof (Z.log2_spec m2 H2) as [_ U2].
  pose proof (Z.log2_nonneg m1). pose proof (Z.log2_nonneg m2).
  pose proof (Zdigits2_log2 m1 H1) as Hd1.
  pose proof (Zdigits2_log2 m2 H2) as Hd2.
  assert (2 ^ (Z.log2 m1 + s) ≤ m') as Lm'.
  { rewrite Hm', Z.pow_add_r by lia. nia. }
  destruct (Z.eq_dec q 0) as [->|Hq0].
  - assert (Z.log2 m1 + s < Z.succ (Z.log2 m2)) as Hlt.
    { apply (Z.pow_lt_mono_r_iff 2); lia. }
    simpl Zdigits2. rewrite fexp_eq in *. lia.
  - assert (0 < q) as Hqpos by lia.
    rewrite (Zdigits2_log2 q Hqpos).
    transitivity (fexp prec emax D); [lia|].
    apply fexp_mono.
    pose proof (Z.log2_nonneg q).
    destruct (Z_lt_le_dec (Z.log2 m1 + s - Z.succ (Z.log2 m2)) 0) as [Hneg|Hnn].
    { lia. }
    assert (2 ^ (Z.log2 m1 + s - Z.succ (Z.log2 m2)) ≤ q) as Hle.
    { assert (2 ^ (Z.log2 m1 + s) < (q + 1) * 2 ^ Z.succ (Z.log2 m2)) as Hlt
        by nia.
      replace (Z.log2 m1 + s)
        with ((Z.log2 m1 + s - Z.succ (Z.log2 m2)) + Z.succ (Z.log2 m2))
        in Hlt by lia.
      rewrite Z.pow_add_r in Hlt by lia.
      assert (0 < 2 ^ Z.succ (Z.log2 m2)) as Hp2
        by (apply Z.pow_pos_nonneg; lia).
      nia. }
    apply Z.log2_le_pow2 in Hle; [|done]. lia.
Qed.

(** Every quotient is a binary64 number, whatever is divided. *)
Lemma div_valid x y : valid (div x y) = true.
Proof.
  destruct x as [sx|sx| |sx mx ex], y as [sy|sy| |sy my ey]; try done.
  unfold div, SFdiv.
  pose proof (SFdiv_core_binary_exponent (Z.pos mx) ex (Z.pos my) ey
                ltac:(lia) ltac:(lia)) as H.
  destruct (SFdiv_core_binary prec emax (Z.pos mx) ex (Z.pos my) ey)
    as [[q e'] l].
  destruct H as [Hq He]. by apply binary_round_aux_valid.
Qed.






Lemma gtb_nan_l y : gtb nan y = false.
Proof. by destruct y. Qed.

Lemma gtb_nan_r x : gtb x nan = false.
Proof. by destruct x. Qed.

Lemma sub_nan_l y : sub nan y = nan.
Proof. done. Qed.

Lemma sub_nan_r x : sub x nan = nan.
Proof. by destruct x. Qed.

Ltac compare_cases :=
  repeat match goal with
         | |- context [Z.compare ?a ?b] => destruct (Z.compare_spec a b)
         | |- context [Pos.compare_cont Eq ?a ?b] =>
             change (Pos.compare_cont Eq a b) with (Pos.compare a b) in *;
             destruct (Pos.compare_spec a b)
         end.

Lemma gtb_irrefl x : gtb x x = false.
Proof.
  destruct x as [[]|[]| |[] m e]; try done;
    unfold gtb, SFltb, SFcompare; compare_cases; done || lia.
Qed.



(** Multiplication commutes, bit for bit. *)
Lemma mul_comm x y : mul x y = mul y x.
Proof.
  destruct x as [sx|sx| |sx mx ex], y as [sy|sy| |sy my ey];
    unfold mul, SFmul; rewrite ?(xorb_comm sx sy); try done.
  by rewrite Pos.mul_comm, Z.add_comm.
Qed.

(** Zeros and NaN under the operations of the similarity. *)
Lemma mul_zero_l x y :
  is_zero x = true → is_zero (mul x y) = true ∨ mul x y = nan.
Proof. destruct x, y; try done; simpl; auto. Qed.

Lemma mul_zero_r x y :
  is_zero y = true → is_zero (mul x y) = true ∨ mul x y = nan.
Proof. rewrite mul_comm. apply mul_zero_l. Qed.

Lemma mul_nan_r x : mul x nan = nan.
Proof. by destruct x. Qed.

Lemma add_nan_r x : add x nan = nan.
Proof. by destruct x. Qed.

Lemma add_zero_or_nan a b :
  is_zero a = true ∨ a = nan → is_zero b = true ∨ b = nan →
  is_zero (add a b) = true ∨ add a b = nan.
Proof.
  intros [Ha| ->] [Hb| ->]; [|right; apply add_nan_r|by right|by right].
  destruct a as [[]| | |], b as [[]| | |]; try done; simpl; auto.
Qed.

Lemma mul_zero_or_nan_l a b :
  is_zero a = true ∨ a = nan → is_zero (mul a b) = true ∨ mul a b = nan.
Proof. intros [Ha| ->]; [by apply mul_zero_l|by right]. Qed.

Lemma mul_zero_or_nan_r a b :
  is_zero b = true ∨ b = nan → is_zero (mul a b) = true ∨ mul a b = nan.
Proof. rewrite mul_comm. apply mul_zero_or_nan_l. Qed.

Lemma sqrt_zero_or_nan a :
  is_zero a = true ∨ a = nan → is_zero (sqrt a) = true ∨ sqrt a = nan.
Proof. intros [Ha| ->]; [|by right]. destruct a; try done. by left. Qed.

(** [0/0], and every division in which NaN takes part, is NaN. *)
Lemma div_zero_or_nan a b :
  is_zero a = true ∨ a = nan → is_zero b = true ∨ b = nan → div a b = nan.
Proof.
  intros [Ha| ->] [Hb| ->]; [|by destruct a|done|done].
  by destruct a, b.
Qed.

(** A division by zero is NaN or an infinity. *)
Lemma div_zero_divisor x d :
  is_zero d = true → div x d = nan ∨ ∃ s, div x d = S754_infinity s.
Proof. destruct x, d; try done; simpl; eauto. Qed.




End Binary64.

(* ===================================================================== *)
(** ** Lemmas on the similarity                                           *)
(* ===================================================================== *)

Section Similarity.
Import SimpleStore.

Lemma reduce_nan b a i :
  reduce_from (fun sum a_i i => add sum (mul a_i (at_index b i))) i a nan
  = nan.
Proof. revert i. induction a as [|y a IH]; intros i; simpl; [done|apply IH]. Qed.

(** While the indices stay inside [b] the accumulator is the partial dot
    product. *)
Lemma reduce_dot b a i x :
  (i + length a ≤ length b)%nat →
  reduce_from (fun sum a_i i => add sum (mul a_i (at_index b i))) i a x
  = foldl add x (zip_with mul a (drop i b)).
Proof.
  revert i x. induction a as [|y a IH]; intros i x Hlen; cbn [reduce_from].
  - done.
  - cbn [length] in Hlen.
    destruct (lookup_lt_is_Some_2 b i) as [z Hz]; [lia|].
    unfold at_index at 2. rewrite Hz.
    rewrite IH by lia.
    by rewrite (drop_S b z i Hz).
Qed.

(** Past the end of [b] the read is [undefined] and the sum is NaN. *)
Lemma reduce_short b a i x :
  (i ≤ length b)%nat → (length b < i + length a)%nat →
  reduce_from (fun sum a_i i => add sum (mul a_i (at_index b i))) i a x
  = nan.
Proof.
  revert i x. induction a as [|y a IH]; intros i x Hi Hlen;
    cbn [reduce_from length] in *; [lia|].
  unfold at_index at 2. destruct (b !! i) as [z|] eqn:Hz.
  - apply lookup_lt_Some in Hz. apply IH; lia.
  - rewrite mul_nan_r, add_nan_r. apply reduce_nan.
Qed.

Lemma dotProduct_dot a b :
  (length a ≤ length b)%nat → dotProduct a b = dot a b.
Proof.
  intros Hlen. unfold dotProduct, reduce. rewrite reduce_dot by (simpl; lia).
  by rewrite drop_0.
Qed.

Lemma dotProduct_short a b :
  (length b < length a)%nat → dotProduct a b = nan.
Proof. intros Hlen. unfold dotProduct, reduce. apply reduce_short; simpl; lia. Qed.

Lemma reduce_squares a i x :
  reduce_from (fun sum a_i (_ : nat) => add sum (mul a_i a_i)) i a x
  = foldl add x (zip_with mul a a).
Proof.
  revert i x.
  induction a as [|y a IH]; intros i x; cbn [reduce_from]; [done|apply IH].
Qed.

Lemma magnitude_norm a : magnitude a = norm a.
Proof.
  unfold magnitude, reduce, norm, sumsq, dot.
  by rewrite reduce_squares.
Qed.

(** The numerator of the similarity of a vector with itself is its sum of
    squares. *)
Lemma dot_self v : dot v v = sumsq v.
Proof. done. Qed.

Lemma zip_with_mul_comm (a b : vector) : zip_with mul a b = zip_with mul b a.
Proof.
  revert b. induction a as [|x a IH]; intros [|y b]; simpl; [done..|].
  by rewrite mul_comm, IH.
Qed.

Lemma dot_comm a b : dot a b = dot b a.
Proof. unfold dot. by rewrite zip_with_mul_comm. Qed.

(** The score of a pair of vectors in closed form. *)
Lemma cosineSimilarity_defined a b :
  (length a ≤ length b)%nat →
  cosineSimilarity a (Some b) = inr (cosine a b).
Proof.
  intros Hlen. unfold cosineSimilarity, cosine.
  by rewrite dotProduct_dot, !magnitude_norm.
Qed.

Lemma cosineSimilarity_short a b :
  (length b < length a)%nat → cosineSimilarity a (Some b) = inr nan.
Proof.
  intros Hlen. unfold cosineSimilarity. by rewrite dotProduct_short.
Qed.

(** Sums of zeros and NaN. *)
Lemma foldl_zero_or_nan (l : list num) x :
  is_zero x = true ∨ x = nan →
  Forall (λ y, is_zero y = true ∨ y = nan) l →
  is_zero (foldl add x l) = true ∨ foldl add x l = nan.
Proof.
  intros Hx Hl. revert x Hx. induction Hl as [|y l Hy Hl IH]; intros x Hx;
    simpl; [done|].
  apply IH. by apply add_zero_or_nan.
Qed.

Lemma zip_with_zero_l (a b : vector) :
  allzero a → Forall (λ y, is_zero y = true ∨ y = nan) (zip_with mul a b).
Proof.
  revert b. induction a as [|x a IH]; intros b Hz; [constructor|].
  destruct b as [|y b]; [constructor|]. simpl. constructor.
  - apply mul_zero_l, Hz. by left.
  - apply IH. intros z Hin. apply Hz. by right.
Qed.

Lemma dot_allzero_l a b :
  allzero a → is_zero (dot a b) = true ∨ dot a b = nan.
Proof.
  intros Hz. apply foldl_zero_or_nan; [by left|by apply zip_with_zero_l].
Qed.

Lemma dot_allzero_r a b :
  allzero b → is_zero (dot a b) = true ∨ dot a b = nan.
Proof. rewrite dot_comm. apply dot_allzero_l. Qed.

Lemma dotProduct_allzero_l a b :
  allzero a → is_zero (dotProduct a b) = true ∨ dotProduct a b = nan.
Proof.
  intros Hz. destruct (decide (length a ≤ length b)%nat) as [Hlen|Hlen].
  - rewrite dotProduct_dot by done. by apply dot_allzero_l.
  - right. apply dotProduct_short. lia.
Qed.

Lemma dotProduct_allzero_r a b :
  allzero b → is_zero (dotProduct a b) = true ∨ dotProduct a b = nan.
Proof.
  intros Hz. destruct (decide (length a ≤ length b)%nat) as [Hlen|Hlen].
  - rewrite dotProduct_dot by done. by apply dot_allzero_r.
  - right. apply dotProduct_short. lia.
Qed.

Lemma magnitude_allzero a :
  allzero a → is_zero (magnitude a) = true ∨ magnitude a = nan.
Proof.
  intros Hz. rewrite magnitude_norm. apply sqrt_zero_or_nan.
  by apply dot_allzero_l.
Qed.

(** A zero vector on either side: the score is NaN. *)
Lemma cosineSimilarity_zero_l a b :
  allzero a → cosineSimilarity a (Some b) = inr nan.
Proof.
  intros Hz. unfold cosineSimilarity. f_equal. apply div_zero_or_nan.
  - by apply dotProduct_allzero_l.
  - by apply mul_zero_or_nan_l, magnitude_allzero.
Qed.

Lemma cosineSimilarity_zero_r a b :
  allzero b → cosineSimilarity a (Some b) = inr nan.
Proof.
  intros Hz. unfold cosineSimilarity. f_equal. apply div_zero_or_nan.
  - by apply dotProduct_allzero_r.
  - by apply mul_zero_or_nan_r, magnitude_allzero.
Qed.


(** Every score is a binary64 number. *)
Lemma cosineSimilarity_valid a b s :
  cosineSimilarity a b = inr s → valid s = true.
Proof.
  destruct b as [b|]; [|done]. intros [= <-]. apply div_valid.
Qed.

End Similarity.

(* ===================================================================== *)
(** ** Lemmas on sorting and ranking                                      *)
(* ===================================================================== *)

Section Ranking.
Import SimpleStore.

Lemma clamp_index_nonneg len k : 0 ≤ len → 0 ≤ k → clamp_index len k = Z.min k len.
Proof. intros Hlen Hk. unfold clamp_index. destruct (Z.ltb_spec k 0); lia. Qed.

Lemma slice_0_take {A} (l : list A) k :
  0 ≤ k → slice 0 k l = take (Z.to_nat k) l.
Proof.
  intros Hk. unfold slice.
  rewrite (clamp_index_nonneg _ 0), (clamp_index_nonneg _ k) by lia.
  replace (Z.min 0 (Z.of_nat (length l))) with 0 by lia.
  rewrite Z.sub_0_r, drop_0.
  destruct (decide (k ≤ Z.of_nat (length l))) as [Hle|Hgt].
  - do 2 f_equal. lia.
  - rewrite !take_ge; [done|lia|lia].
Qed.

Lemma slice_0_prefix {A} (l : list A) k : slice 0 k l `prefix_of` l.
Proof.
  unfold slice. replace (clamp_index (Z.of_nat (length l)) 0) with 0.
  - apply prefix_take.
  - unfold clamp_index. simpl. lia.
Qed.

Lemma sort_insert_perm {A} (cmp : A → A → num) x l :
  sort_insert cmp x l ≡ₚ x :: l.
Proof.
  induction l as [|y l IH]; simpl; [done|].
  destruct (gtb _ _); [|done].
  rewrite IH. apply Permutation_swap.
Qed.

Lemma js_sort_perm {A} (cmp : A → A → num) l : js_sort cmp l ≡ₚ l.
Proof.
  induction l as [|x l IH]; simpl; [done|].
  by rewrite sort_insert_perm, IH.
Qed.








(** Every document contributes one scored entry, in order. *)
Lemma scoreAll_ids q docs results :
  scoreAll q docs = inr results → map id results = map doc_id docs.
Proof.
  revert results. induction docs as [|d docs IH]; intros results; simpl.
  - by intros [= <-].
  - destruct (cosineSimilarity q (doc_embedding d)); [done|].
    destruct (scoreAll q docs); [done|].
    intros [= <-]. simpl. f_equal. by apply IH.
Qed.

End Ranking.


(* ===================================================================== *)
(** ** Properties of the in-memory query                                  *)
(* ===================================================================== *)

Section QueryFacts.
Import SimpleStore.


Lemma scoreAll_elem q docs results d :
  scoreAll q docs = inr results → d ∈ docs →
  ∃ s, cosineSimilarity q (doc_embedding d) = inr s
       ∧ {| id := doc_id d; score := s; metadata := doc_metadata d |} ∈ results.
Proof.
  revert results. induction docs as [|d' docs IH]; intros results Hs Hin.
  - by apply elem_of_nil in Hin.
  - simpl in Hs.
    destruct (cosineSimilarity q (doc_embedding d')) as [|s'] eqn:Hc; [done|].
    destruct (scoreAll q docs) as [|rest]; [done|].
    injection Hs as <-.
    apply elem_of_cons in Hin as [->|Hin].
    + exists s'. split; [done|by left].
    + destruct (IH rest eq_refl Hin) as (s & ? & ?).
      exists s. split; [done|by right].
Qed.

Lemma scoreAll_inv q docs results r :
  scoreAll q docs = inr results → r ∈ results →
  ∃ d, d ∈ docs ∧ cosineSimilarity q (doc_embedding d) = inr (score r).
Proof.
  revert results. induction docs as [|d' docs IH]; intros results Hs Hin.
  - injection Hs as <-. by apply elem_of_nil in Hin.
  - simpl in Hs.
    destruct (cosineSimilarity q (doc_embedding d')) as [|s'] eqn:Hc; [done|].
    destruct (scoreAll q docs) as [|rest]; [done|].
    injection Hs as <-.
    apply elem_of_cons in Hin as [->|Hin].
    + exists d'. split; [by left|done].
    + destruct (IH rest eq_refl Hin) as (d & ? & ?).
      exists d. split; [by right|done].
Qed.

(** When every embedding is present the scoring itself cannot throw. *)
Lemma scoreAll_total q docs :
  (∀ d, d ∈ docs → is_Some (doc_embedding d)) →
  ∃ results, scoreAll q docs = inr results.
Proof.
  induction docs as [|d docs IH]; intros Hd; simpl; [by eexists|].
  destruct (Hd d) as [v Hv]; [by left|]. rewrite Hv. simpl.
  destruct IH as [rest ->]; [by intros; apply Hd; right|]. by eexists.
Qed.

(** Every score of the ranking is a binary64 number. *)
Lemma scoreAll_valid q docs results r :
  scoreAll q docs = inr results → r ∈ results → valid (score r) = true.
Proof.
  intros Hs Hr. destruct (scoreAll_inv q docs results r Hs Hr) as (d & _ & Hc).
  by eapply cosineSimilarity_valid.
Qed.

End QueryFacts.

Section ScenarioFacts.
Import SimpleStore Scenario.

Lemma allzero_0_0 : allzero [ofZ 0; ofZ 0].
Proof.
  intros x Hx. repeat (apply elem_of_cons in Hx as [->|Hx]; [done|]).
  by apply elem_of_nil in Hx.
Qed.

Lemma nonzero_east : nonzero east.
Proof. exists (ofZ 1). split; [by left|done]. Qed.

Lemma nonzero_3_4 : nonzero [ofZ 3; ofZ 4].
Proof. exists (ofZ 3). split; [by left|done]. Qed.

Lemma scoreAll_withZero :
  scoreAll east withZero
  = inr [entry "a" (div (ofZ 3) (ofZ 5)); entry "z" nan; entry "b" one].
Proof. reflexivity. Qed.


Lemma scoreAll_zeroFirst :
  scoreAll east zeroFirst = inr [entry "z" nan; entry "b" one].
Proof. reflexivity. Qed.


Lemma query_zeroFirst : query zeroFirst east (Some 1) = inr [].
Proof. reflexivity. Qed.


End ScenarioFacts.

(* ===================================================================== *)
(** ** Ranking and similarity of the in-memory store: main results        *)
(* ===================================================================== *)

Section StoreResults.
Import SimpleStore Scenario Extremes.







Lemma ranked_subset results topK r : r ∈ ranked results topK → r ∈ results.
Proof.
  unfold ranked. intros Hr.
  destruct (slice_0_prefix (js_sort byScoreDesc results) topK) as [k Hk].
  rewrite <-(js_sort_perm byScoreDesc results), Hk.
  apply elem_of_app. by left.
Qed.

Lemma ranked_all results topK :
  Z.of_nat (length results) ≤ topK → ranked results topK ≡ₚ results.
Proof.
  intros Hk. unfold ranked. rewrite slice_0_take by lia.
  rewrite take_ge; [apply js_sort_perm|].
  rewrite js_sort_perm. lia.
Qed.

Lemma scoreAll_length q docs results :
  scoreAll q docs = inr results → length results = length docs.
Proof.
  intros H. apply scoreAll_ids in H.
  by rewrite <-(length_map id results), H, length_map.
Qed.

(** The last step of [query] drops what the division left undefined: a NaN
    score is not above the threshold, so no returned entry carries one. *)
Lemma query_never_returns_nan docs q topK out r :
  query docs q topK = inr out → r ∈ out → score r ≠ nan.
Proof.
  unfold query. destruct (scoreAll q docs) as [e|results]; [done|].
  intros [= <-] [Habove _]%list_elem_of_filter Hnan.
  unfold aboveThreshold in Habove. by rewrite Hnan in Habove.
Qed.

(** A zero embedding stored ahead of a match takes the only slot of a
    query with limit 1, and the filter then leaves nothing. *)
Lemma zero_vector_takes_slot z v d q s :
  doc_embedding z = Some v → allzero v →
  cosineSimilarity q (doc_embedding d) = inr s →
  query [z; d] q (Some 1) = inr [].
Proof.
  intros Hz Hv Hd. unfold query. cbn [scoreAll].
  rewrite Hz, (cosineSimilarity_zero_r q v Hv), Hd.
  change (default 5 (Some 1)) with 1. unfold ranked.
  cbn [js_sort foldr sort_insert].
  unfold sort_compare, byScoreDesc. cbn [score].
  rewrite sub_nan_r, slice_0_take by lia.
  change (gtb (if is_nan nan then zero else nan) zero) with false. cbv iota.
  change (Z.to_nat 1) with 1%nat. cbn [take].
  rewrite filter_cons_False; [done|].
  unfold aboveThreshold. cbn [score]. rewrite gtb_nan_l. exact (λ H, H).
Qed.

Lemma single_match_returned d q s :
  cosineSimilarity q (doc_embedding d) = inr s → gtb s tenth = true →
  query [d] q (Some 1)
  = inr [{| id := doc_id d; score := s; metadata := doc_metadata d |}].
Proof.
  intros Hd Hs. unfold query. cbn [scoreAll]. rewrite Hd.
  change (default 5 (Some 1)) with 1. unfold ranked.
  cbn [js_sort foldr sort_insert].
  rewrite slice_0_take by lia. change (Z.to_nat 1) with 1%nat. cbn [take].
  rewrite filter_cons_True; [done|].
  unfold aboveThreshold. cbn [score]. by rewrite Hs.
Qed.

(** C10, as stated, fails: the vectors [2^-600] and [2^300] are non-zero
    binary64 vectors, but the square of the first underflows to 0, its
    magnitude is 0 and so is the divisor; the score is then +Infinity,
    which [query] returns. *)
Lemma nonzero_vectors_zero_divisor :
  nonzero tiny ∧ wellFormed tiny ∧ nonzero large ∧ wellFormed large
  ∧ mul (magnitude tiny) (magnitude large) = zero
  ∧ query [doc "v" large] tiny (Some 5)
    = inr [entry "v" (S754_infinity false)].
Proof.
  assert (∀ x : num, wellFormed [x] ↔ valid x = true ∧ is_finite x = true)
    as Hone.
  { intros x. split; [intros H; apply H; by left|].
    intros H y Hy. by apply list_elem_of_singleton in Hy as ->. }
  split; [|split; [|split; [|split; [|split]]]].
  - exists (scaled 1 (-600)). split; [by left|done].
  - by apply Hone.
  - exists (scaled 1 300). split; [by left|done].
  - by apply Hone.
  - reflexivity.
  - reflexivity.
Qed.

(** C10 (amended): the division of [cosineSimilarity] is unguarded.
    (1) A zero vector on either side makes the score NaN (0/0), whatever
    the other vector.  (2) Whenever the divisor [|a| * |b|] is zero in
    binary64 the score is NaN or an infinity.  (3) Nothing at the entry of
    [query] keeps a NaN score out of the ranking: a zero vector stored
    ahead of a match takes the only slot of a query with limit 1, which
    returns nothing although it returns the match when the zero vector is
    not stored.  (4) Only the final filter removes NaN: every score that
    [query] returns is a binary64 number above 0.1, NaN excluded, of a
    stored vector that is not a zero vector. *)
Theorem cosineSimilarity_division_unguarded :
  (∀ a b, allzero a ∨ allzero b → cosineSimilarity a (Some b) = inr nan)
  ∧ (∀ a b, is_zero (mul (magnitude a) (magnitude b)) = true →
            ∃ s, cosineSimilarity a (Some b) = inr s
                 ∧ (s = nan ∨ ∃ sign, s = S754_infinity sign))
  ∧ (∀ z v d q s,
       doc_embedding z = Some v → allzero v →
       cosineSimilarity q (doc_embedding d) = inr s → gtb s tenth = true →
       query [z; d] q (Some 1) = inr []
       ∧ query [d] q (Some 1)
         = inr [{| id := doc_id d; score := s; metadata := doc_metadata d |}])
  ∧ (∀ docs q topK out r,
       query docs q topK = inr out → r ∈ out →
       score r ≠ nan ∧ valid (score r) = true ∧ gtb (score r) tenth = true
       ∧ ∃ d v, d ∈ docs ∧ id r = doc_id d ∧ doc_embedding d = Some v
                ∧ ¬ allzero v ∧ ¬ allzero q).
Proof.
  split; [|split; [|split]].
  - intros a b [Hz|Hz];
      [by apply cosineSimilarity_zero_l|by apply cosineSimilarity_zero_r].
  - intros a b Hz. eexists. split; [done|]. by apply div_zero_divisor.
  - intros z v d q s Hz Hv Hd Hs. split.
    + by eapply zero_vector_takes_slot.
    + by apply single_match_returned.
  - intros docs q topK out r Hq Hr.
    split; [by eapply query_never_returns_nan|].
    unfold query in Hq.
    destruct (scoreAll q docs) as [e|results] eqn:Hres; [done|].
    injection Hq as <-.
    apply list_elem_of_filter in Hr as [Habove Hr].
    apply ranked_subset in Hr.
    split; [by eapply scoreAll_valid|].
    split; [by apply Is_true_true|].
    assert (∃ d, d ∈ docs ∧ id r = doc_id d
                 ∧ cosineSimilarity q (doc_embedding d) = inr (score r))
      as (d & Hd & Hid & Hc).
    { clear Habove. revert results Hres Hr.
      induction docs as [|d' docs IH]; intros results Hres Hr.
      - injection Hres as <-. by apply elem_of_nil in Hr.
      - simpl in Hres.
        destruct (cosineSimilarity q (doc_embedding d')) as [|s'] eqn:Hc;
          [done|].
        destruct (scoreAll q docs) as [|rest]; [done|].
        injection Hres as <-.
        apply elem_of_cons in Hr as [->|Hr].
        + exists d'. split; [by left|done].
        + destruct (IH rest eq_refl Hr) as (d & ? & ? & ?).
          exists d. split; [by right|done]. }
    unfold aboveThreshold in Habove.
    destruct (doc_embedding d) as [v|] eqn:Hv; [|done].
    exists d, v. split; [done|]. split; [done|]. split; [done|].
    split; intros Hz.
    + rewrite (cosineSimilarity_zero_r q v Hz) in Hc.
      injection Hc as Hc. by rewrite <-Hc in Habove.
    + rewrite (cosineSimilarity_zero_l q v Hz) in Hc.
      injection Hc as Hc. by rewrite <-Hc in Habove.
Qed.

Lemma cosineSimilarity_division_unguarded_witness :
  cosineSimilarity east (Some [ofZ 0; ofZ 0]) = inr nan
  ∧ (∃ s, cosineSimilarity tiny (Some large) = inr s
          ∧ (s = nan ∨ ∃ sign, s = S754_infinity sign))
  ∧ (query [doc "z" [ofZ 0; ofZ 0]; doc "b" east] east (Some 1) = inr []
     ∧ query [doc "b" east] east (Some 1) = inr [entry "b" one])
  ∧ (score (entry "a" (div (ofZ 3) (ofZ 5))) ≠ nan
     ∧ valid (score (entry "a" (div (ofZ 3) (ofZ 5)))) = true
     ∧ gtb (score (entry "a" (div (ofZ 3) (ofZ 5)))) tenth = true
     ∧ ∃ d v, d ∈ allDefined
              ∧ id (entry "a" (div (ofZ 3) (ofZ 5))) = doc_id d
              ∧ doc_embedding d = Some v ∧ ¬ allzero v ∧ ¬ allzero east).
Proof.
  pose proof cosineSimilarity_division_unguarded
    as (Hzero & Hdiv & Hslot & Hout).
  split; [|split; [|split]].
  - apply Hzero. right. apply allzero_0_0.
  - apply Hdiv. reflexivity.
  - apply (Hslot (doc "z" [ofZ 0; ofZ 0]) [ofZ 0; ofZ 0] (doc "b" east) east one);
      [reflexivity|apply allzero_0_0|reflexivity|reflexivity].
  - apply (Hout allDefined east (Some 5)
             [entry "b" one; entry "a" (div (ofZ 3) (ofZ 5))]);
      [reflexivity|]. right. by left.
Defined.

(** A consequence of the unguarded division: a zero embedding stored ahead
    of a perfect match takes the only slot of a query with limit 1, and the
    filter then leaves nothing. *)
Lemma zero_vector_displaces_match : query zeroFirst east (Some 1) = inr [].
Proof. apply query_zeroFirst. Qed.

End StoreResults.


(* ===================================================================== *)
(** ** Running the tools                                                  *)
(* ===================================================================== *)

Section MonadFacts.
Context {St : Type}.

Lemma bind_run {A B'} (m : M St A) (k : A → M St B') s :
  bind m k s
  = match m s with
    | (inr a, s') => k a s'
    | (inl e, s') => (inl e, s')
    end.
Proof. done. Qed.

Lemma bind_inr {A B'} (m : M St A) (k : A → M St B') s a s' :
  m s = (inr a, s') → bind m k s = k a s'.
Proof. intros H. by rewrite bind_run, H. Qed.

Lemma bind_inl {A B'} (m : M St A) (k : A → M St B') s e s' :
  m s = (inl e, s') → bind m k s = (inl e, s').
Proof. intros H. by rewrite bind_run, H. Qed.

Lemma try_catch_inr {A} (body : M St A) handler s a s' :
  body s = (inr a, s') → try_catch body handler s = (inr a, s').
Proof. intros H. unfold try_catch. by rewrite H. Qed.

Lemma try_catch_inl {A} (body : M St A) handler s e s' :
  body s = (inl e, s') → try_catch body handler s = handler e s'.
Proof. intros H. unfold try_catch. by rewrite H. Qed.

(** A callback that always returns makes [map] return, with one result per
    element; a property of the state that the callback carries along is
    carried along the whole loop. *)
Lemma mapM_from_returns {A B'} (f : A → nat → M St B') (P : St → St → Prop) :
  (∀ s, P s s) → (∀ s1 s2 s3, P s1 s2 → P s2 s3 → P s1 s3) →
  (∀ x i s, ∃ y s', f x i s = (inr y, s') ∧ P s s') →
  ∀ l i s, ∃ ys s',
    mapM_from f i l s = (inr ys, s') ∧ length ys = length l ∧ P s s'.
Proof.
  intros Hrefl Htrans Hf l. induction l as [|x l IH]; intros i s.
  - exists [], s. by split.
  - destruct (Hf x i s) as (y & s1 & Hy & HP1).
    destruct (IH (S i) s1) as (ys & s2 & Hys & Hlen & HP2).
    exists (y :: ys), s2. split; [|split].
    + cbn [mapM_from]. rewrite (bind_inr _ _ _ _ _ Hy).
      by rewrite (bind_inr _ _ _ _ _ Hys).
    + simpl. by rewrite Hlen.
    + by eapply Htrans.
Qed.

End MonadFacts.

Section RunFacts.
Import RagTools.
Context {W : Type} (B : Backend W) (L : DocLib).

Lemma now_run env :
  now B env = (inr (dateNow B (world env)).1,
               {| world := (dateNow B (world env)).2; trace := trace env |}).
Proof. done. Qed.

Lemma isoNow_run env :
  isoNow B env = (inr (toISOString B (dateNow B (world env)).1),
                  {| world := (dateNow B (world env)).2; trace := trace env |}).
Proof. done. Qed.

Lemma call_run {A} c inj (h : W → (Thrown + A) * W) env :
  call c inj h env
  = ((h (world env)).1,
     {| world := (h (world env)).2;
        trace := trace env ++ [(c, outcome_of inj (h (world env)).1)] |}).
Proof. done. Qed.

Lemma ticks_trans w1 w2 w3 : ticks B w1 w2 → ticks B w2 w3 → ticks B w1 w3.
Proof. induction 1; [done|]. intros. apply ticks_step. auto. Qed.

Lemma ticks_once w : ticks B w (dateNow B w).2.
Proof. apply ticks_step, ticks_refl. Qed.

Lemma records_run (f : Chunk → nat → string → Metadata) chunks env :
  ∃ mds env',
    mapM (fun c index => addedAt <- isoNow B ;; ret (f c index addedAt))
         chunks env = (inr mds, env')
    ∧ length mds = length chunks
    ∧ (trace env' = trace env ∧ ticks B (world env) (world env')).
Proof.
  apply (mapM_from_returns _ (λ s s', trace s' = trace s
                                       ∧ ticks B (world s) (world s'))).
  - intros s. split; [done|apply ticks_refl].
  - intros s1 s2 s3 [H1 T1] [H2 T2]. split; [congruence|by eapply ticks_trans].
  - intros c i s. eexists _, _. split; [by rewrite bind_run, isoNow_run|].
    split; [done|apply ticks_once].
Qed.

Lemma ensureIndex_run env :
  ∃ o w', ensureIndex B env
          = (inr tt, {| world := w'; trace := trace env ++ [(createIndexCall, o)] |})
          ∧ w' = (createIndex B indexName 768 "cosine" (world env)).2
          ∧ o = outcome_of (fun _ => RUnit)
                  (createIndex B indexName 768 "cosine" (world env)).1.
Proof.
  unfold ensureIndex, try_catch. rewrite call_run.
  destruct (createIndex B indexName 768 "cosine" (world env)) as [[e|[]] w'];
    cbn [fst snd]; by eexists _, _.
Qed.

Lemma chooseDocumentId_run doc' env w :
  reading B 2 w = (dateNow B (world env)).1 →
  ∃ env', chooseDocumentId B (getMetadata L doc') env
          = (inr (idOf B L w doc'), env')
          ∧ trace env' = trace env
          ∧ ticks B (world env) (world env').
Proof.
  intros Hread. unfold chooseDocumentId, idOf.
  destruct (truthy _); [eexists; split; [done|]; split; [done|apply ticks_refl]|].
  unfold freshId. rewrite bind_run, now_run. rewrite Hread.
  eexists. split; [done|]. split; [done|apply ticks_once].
Qed.

Lemma freshId_run env :
  freshId B env
  = (inr (JStr ("doc-" +:+ pretty (dateNow B (world env)).1)),
     {| world := (dateNow B (world env)).2; trace := trace env |}).
Proof. done. Qed.

Lemma lift_sum_run {A} (r : Thrown + A) (env : Env W) : lift_sum r env = (r, env).
Proof. done. Qed.

(** Every call runs to a result, along one of the shapes of [Run], and
    leaves the world that the calls of its trace produce. *)
Lemma addDocumentTool_run input w :
  ∃ out env',
    addDocumentTool B L input (start w) = (inr out, env')
    ∧ Run B L input w (trace env') out
    ∧ Leaves B w (trace env') (world env').
Proof.
  unfold addDocumentTool, try_catch.
  rewrite bind_run, isoNow_run. cbn [start world trace].
  rewrite bind_run, freshId_run. cbn [world trace].
  rewrite bind_run, lift_sum_run.
  change (chunk L _ _) with (chunked B L input w).
  assert (ticks B w (dateNow B (dateNow B w).2).2) as Hw2
    by (eapply ticks_trans; apply ticks_once).
  destruct (chunked B L input w) as [e|[doc' chunks]] eqn:Hchunk.
  { eexists _, _. split; [done|]. split; by constructor. }
  cbn [fst snd].
  rewrite bind_run.
  match goal with
  | |- context [chooseDocumentId B _ ?env] =>
      destruct (chooseDocumentId_run doc' env w eq_refl)
        as (env3 & -> & Htr3 & Ht3)
  end.
  cbn [world trace] in Htr3, Ht3.
  rewrite bind_run.
  destruct (ensureIndex_run env3) as (o & w4 & -> & -> & ->).
  rewrite bind_run.
  match goal with
  | |- context [mapM ?f chunks ?env] =>
      destruct (records_run (chunkRecord (idOf B L w doc')) chunks env)
        as (mds & env5 & -> & Hlen & Htr5 & Ht5)
  end.
  cbn [world trace] in Htr5, Ht5. rewrite Htr3 in Htr5. cbn [app] in Htr5.
  assert (ticks B w (world env3)) as Hw3 by (by eapply ticks_trans).
  rewrite bind_run, call_run.
  destruct (embedMany B (map chunk_text chunks) (world env5)) as [[e|vs] w6] eqn:He;
    cbn [fst snd outcome_of].
  { eexists _, _. split; [done|]. cbn [trace world]. rewrite Htr5. cbn [app].
    split; [by econstructor|]. by eapply leaves_embedding. }
  rewrite bind_run, call_run. cbn [world trace].
  match goal with
  | |- context [upsert B ?a ?b ?c ?d ?e] =>
      pose proof (leaves_upsert B w (world env3) (world env5) _ _ _ c d
                    (upsert B a b c d e) Hw3 Ht5 He eq_refl) as Hleaves;
      destruct (upsert B a b c d e) as [[e'|[]] w7]
  end; cbn [fst snd outcome_of] in *.
  - eexists _, _. split; [done|]. cbn [trace world]. rewrite Htr5. cbn [app].
    split; [by econstructor|done].
  - eexists _, _. split; [done|]. cbn [trace world]. rewrite Htr5. cbn [app].
    split; [by econstructor|done].
Qed.
End RunFacts.

(* ===================================================================== *)
(** ** The search tool over the external index: main results              *)
(* ===================================================================== *)

Section SearchResults.
Import RagTools Scenario.

Lemma append_assoc (a b c : string) : (a +:+ b) +:+ c = a +:+ (b +:+ c).
Proof.
  induction a as [|x a IH]; [done|].
  change (String x ((a +:+ b) +:+ c) = String x (a +:+ b +:+ c)).
  by rewrite IH.
Qed.

Lemma append_nil_r (a : string) : a +:+ "" = a.
Proof.
  induction a as [|x a IH]; [done|].
  change (String x (a +:+ "") = String x a). by rewrite IH.
Qed.

Lemma embeds_suffix part pre : embeds part (pre +:+ part).
Proof. exists pre, "". by rewrite append_nil_r. Qed.

Lemma embeds_append_l part a whole : embeds part whole → embeds part (a +:+ whole).
Proof. intros (pre & post & ->). exists (a +:+ pre), post. by rewrite append_assoc. Qed.

Lemma fallbackContent_embeds q m : embeds m (fallbackContent q m).
Proof. unfold fallbackContent. do 4 apply embeds_append_l. apply embeds_suffix. Qed.

Lemma prefix_append (a b : string) : String.prefix a (a +:+ b) = true.
Proof.
  induction a as [|x a IH]; [by destruct b|].
  change (String.prefix (String x a) (String x (a +:+ b)) = true).
  cbn [String.prefix]. by destruct (Ascii.ascii_dec x x).
Qed.

Lemma occurs_here part whole :
  String.prefix part whole = true → occurs part whole = true.
Proof. intros H. destruct whole; cbn [occurs]; by rewrite H. Qed.

Lemma occurs_later part x whole :
  occurs part whole = true → occurs part (String x whole) = true.
Proof. intros H. cbn [occurs]. rewrite H. apply orb_true_r. Qed.

(** [occurs] decides [embeds] in the direction the examples need. *)
Lemma embeds_occurs part whole : embeds part whole → occurs part whole = true.
Proof.
  intros (pre & post & ->).
  induction pre as [|x pre IH].
  - change (occurs part (part +:+ post) = true).
    apply occurs_here, prefix_append.
  - change (occurs part (String x (pre +:+ part +:+ post)) = true).
    apply occurs_later, IH.
Qed.

(** C1, as stated, fails for a failure that is not an [Error] object.  The
    index of this example rejects the query by throwing the string
    "quota exceeded", after the query embedding was computed.  The call
    returns the one synthetic source with [error: true] and
    [searchPerformed = false], but the reason "quota exceeded" occurs
    neither in the content of that source nor in [relevantContext]: both
    carry the fixed text "Unknown error occurred". *)
Lemma ragSearchTool_hides_thrown_value :
  let input := ask "What is Mastra?" in
  let qe := [Reference.embedText "What is Mastra?"] in
  let run := ragSearchTool Extremes.rejecting input (start emptyIndex) in
  embedMany Extremes.rejecting [query input] emptyIndex = (inr qe, emptyIndex)
  ∧ storeQuery Extremes.rejecting (queryArgs input qe) emptyIndex
    = (inl (NonError (JStr "quota exceeded")), emptyIndex)
  ∧ ∃ out s content,
      run.1 = inr out
      ∧ sources out = [s]
      ∧ src_metadata s !! "error" = Some (JBool true)
      ∧ searchPerformed out = false
      ∧ src_content s = JStr content
      ∧ content = fallbackContent "What is Mastra?" "Unknown error occurred"
      ∧ relevantContext out = content
      ∧ ¬ embeds "quota exceeded" content.
Proof.
  intros input qe run. split; [reflexivity|]. split; [reflexivity|].
  eexists _, _, _. split; [reflexivity|]. split; [reflexivity|].
  split; [reflexivity|]. split; [reflexivity|]. split; [reflexivity|].
  split; [reflexivity|]. split; [reflexivity|].
  intros H%embeds_occurs. vm_compute in H. discriminate H.
Qed.

(** C1 (amended): whatever fails during the query phase, once the query
    embedding has been computed, is caught: the call returns a response
    with exactly one synthetic source, whose metadata carries [error: true],
    and with [searchPerformed = false].  The content of the source embeds
    the message of the failure when the failure is an [Error], and the
    fixed text "Unknown error occurred" when another value was thrown.  The
    tool never rethrows: every call returns a response. *)
Theorem ragSearchTool_degrades {W} (B : Backend W) :
  (∀ input env, ∃ out env', ragSearchTool B input env = (inr out, env'))
  ∧ (∀ input env qe w1 e w2,
       embedMany B [query input] (world env) = (inr qe, w1) →
       storeQuery B (queryArgs input qe) w1 = (inl e, w2) →
       ∃ out env' s,
         ragSearchTool B input env = (inr out, env')
         ∧ sources out = [s]
         ∧ src_metadata s !! "error" = Some (JBool true)
         ∧ (∃ content, src_content s = JStr content
                       ∧ embeds (message_or e "Unknown error occurred") content)
         ∧ (∀ m, e = ErrorObj m → embeds m (relevantContext out))
         ∧ searchPerformed out = false).
Proof.
  split.
  - intros input env. unfold ragSearchTool, try_catch.
    rewrite bind_run, call_run.
    destruct (embedMany B [query input] (world env)) as [[e|qe] w1];
      cbn [fst snd]; [by eexists _, _|].
    rewrite bind_run, call_run. cbn [world trace].
    destruct (storeQuery B (queryArgs input qe) w1) as [[e|rs] w2];
      cbn [fst snd]; by eexists _, _.
  - intros input env qe w1 e w2 Hembed Hquery.
    unfold ragSearchTool, try_catch.
    rewrite bind_run, call_run, Hembed. cbn [fst snd].
    rewrite bind_run, call_run. cbn [world trace]. rewrite Hquery.
    cbn [fst snd]. eexists _, _, _. split; [done|].
    cbn [sources fallbackOutput src_metadata src_content searchPerformed
         relevantContext].
    split; [done|]. split; [done|]. split; [|split; [|done]].
    + eexists. split; [done|]. apply fallbackContent_embeds.
    + intros m ->. apply fallbackContent_embeds.
Qed.

Lemma ragSearchTool_degrades_witness :
  ∃ out env' s,
    ragSearchTool Reference.backend (ask "What is Mastra?") (start storeDown)
    = (inr out, env')
    ∧ sources out = [s]
    ∧ src_metadata s !! "error" = Some (JBool true)
    ∧ (∃ content, src_content s = JStr content
                  ∧ embeds "StoreQueryError" content)
    ∧ (∀ m, ErrorObj "StoreQueryError" = ErrorObj m → embeds m (relevantContext out))
    ∧ searchPerformed out = false.
Proof.
  apply (proj2 (ragSearchTool_degrades Reference.backend)
           (ask "What is Mastra?") (start storeDown)
           [Reference.embedText "What is Mastra?"] storeDown
           (ErrorObj "StoreQueryError") storeDown);
    reflexivity.
Defined.

(** C2 (what the code does): when the query returns no result without
    failing, the advanced search tool answers with zero sources,
    [totalFound = 0], [searchPerformed = true] and the empty string as
    [relevantContext]: joining no block gives [""], and no sentinel message
    is substituted. *)
Theorem ragSearchTool_empty_result {W} (B : Backend W) input env qe w1 w2 :
  embedMany B [query input] (world env) = (inr qe, w1) →
  storeQuery B (queryArgs input qe) w1 = (inr [], w2) →
  ∃ env',
    ragSearchTool B input env
    = (inr {| relevantContext := ""; sources := [];
              totalFound := 0; searchPerformed := true |}, env').
Proof.
  intros Hembed Hquery. unfold ragSearchTool, try_catch.
  rewrite bind_run, call_run, Hembed. cbn [fst snd].
  rewrite bind_run, call_run. cbn [world trace]. rewrite Hquery.
  cbn [fst snd]. by eexists.
Qed.

Lemma ragSearchTool_empty_result_witness :
  ∃ env',
    ragSearchTool Reference.backend (ask "What is Mastra?") (start emptyIndex)
    = (inr {| relevantContext := ""; sources := [];
              totalFound := 0; searchPerformed := true |}, env').
Proof.
  apply (ragSearchTool_empty_result Reference.backend
           (ask "What is Mastra?") (start emptyIndex)
           [Reference.embedText "What is Mastra?"] emptyIndex emptyIndex);
    reflexivity.
Defined.

(** The in-memory variant of the tool does substitute the sentinel on an
    empty result; its response has no [searchPerformed] field. *)
Lemma simple_ragSearchTool_sentinel {W} (B : Backend W) q maxResults st v w1 :
  embed B q (world (SimpleStore.env st)) = (inr v, w1) →
  SimpleStore.query (SimpleStore.documents st) v (Some (default 5 maxResults))
  = inr [] →
  (SimpleStore.ragSearchTool B q maxResults st).1
  = inr {| SimpleStore.relevantContext :=
             "No relevant documents found for the given query.";
           SimpleStore.sources := [] |}.
Proof.
  intros Hembed Hquery. unfold SimpleStore.ragSearchTool, try_catch.
  rewrite bind_run. unfold SimpleStore.liftEnv at 1.
  rewrite call_run, Hembed. cbn [fst snd].
  rewrite bind_run. cbn [SimpleStore.documents]. rewrite Hquery. done.
Qed.

End SearchResults.

(* ===================================================================== *)
(** ** The ingestion tool: main results                                   *)
(* ===================================================================== *)

Section IngestResults.
Import RagTools Scenario.

(** Every run of the tool is one of the four shapes of [Run]. *)
Lemma addDocumentTool_inv {W} (B : Backend W) L input w out env' :
  addDocumentTool B L input (start w) = (inr out, env') →
  Run B L input w (trace env') out.
Proof.
  intros Heq.
  destruct (addDocumentTool_run B L input w) as (o & e & Heq' & Hrun & _).
  rewrite Heq in Heq'. by injection Heq' as -> ->.
Qed.

Lemma addDocumentTool_leaves {W} (B : Backend W) L input w out env' :
  addDocumentTool B L input (start w) = (inr out, env') →
  Leaves B w (trace env') (world env').
Proof.
  intros Heq.
  destruct (addDocumentTool_run B L input w) as (o & e & Heq' & _ & Hl).
  rewrite Heq in Heq'. by injection Heq' as -> ->.
Qed.

Ltac trace_cases H :=
  unfold createIndexCall in H;
  repeat (apply elem_of_cons in H as [H|H]; [simplify_eq|]);
  try (by apply elem_of_nil in H).

(** After a failed embedding the world is the one the embedder returned;
    before it only the clock and [createIndex] acted. *)
Lemma embedding_failure_world {W} (B : Backend W) L input w out env' texts e :
  addDocumentTool B L input (start w) = (inr out, env') →
  (EmbedMany texts, Threw e) ∈ trace env' →
  ∃ w3 w5,
    ticks B w w3
    ∧ ticks B (createIndex B indexName 768 "cosine" w3).2 w5
    ∧ embedMany B texts w5 = (inl e, world env').
Proof.
  intros Hleaves%addDocumentTool_leaves Hin.
  generalize dependent (trace env'). intros tr Hleaves Hin.
  destruct Hleaves as [w' Ht|w3 w5 texts' e' w' Ht3 Ht5 He|
                       w3 w5 texts' vs w6 mds ids r Ht3 Ht5 He Hr];
    trace_cases Hin.
  by exists w3, w5.
Qed.

(** C3, as stated, fails: the knowledge base is not always left as it
    was.  [createIndex] runs before the embedding, so a call on a store
    without the index "knowledge-base" whose embedding fails returns the
    failed result and issues no upsert, yet leaves a store that now has the
    index, empty. *)
Lemma embedding_failure_creates_index :
  let run := addDocumentTool Reference.backend Reference.docLib
               (addText "Mastra is a framework.") (start embedderDown) in
  run.1 = inr (failedOutput (ErrorObj "EmbeddingServiceError"))
  ∧ map fst (trace run.2)
    = [createIndexCall; EmbedMany ["Mastra is a framework."]]
  ∧ (EmbedMany ["Mastra is a framework."],
     Threw (ErrorObj "EmbeddingServiceError")) ∈ trace run.2
  ∧ Reference.indexes embedderDown !! indexName = None
  ∧ Reference.indexes (world run.2) !! indexName
    = Some {| Reference.ix_dimension := 768;
              Reference.ix_metric := "cosine";
              Reference.ix_entries := [] |}
  ∧ Reference.indexes (world run.2) ≠ Reference.indexes embedderDown.
Proof.
  intros run.
  assert (Reference.indexes (world run.2) !! indexName
          = Some {| Reference.ix_dimension := 768;
                    Reference.ix_metric := "cosine";
                    Reference.ix_entries := [] |}) as Hix
    by (vm_compute; reflexivity).
  split; [reflexivity|]. split; [reflexivity|].
  split; [right; left|]. split; [reflexivity|]. split; [exact Hix|].
  intros Heq. rewrite Heq in Hix. vm_compute in Hix. discriminate Hix.
Qed.

(** C3 (amended): when the embedding step fails, no upsert is issued in
    that call, the caller gets the failed result ([embedded = false], a
    message with the reason), and the store is left as the failing embedder
    returned it: before that call only the clock and [createIndex] acted on
    it, so the one change the call can have made is the creation of the
    index.  In every run an upsert comes after the one successful embedding
    call, whose vectors it writes: all chunks are embedded before anything
    is written. *)
Theorem embedding_failure_aborts_before_upsert {W} (B : Backend W) L input w
    out env' :
  addDocumentTool B L input (start w) = (inr out, env') →
  (∀ texts e,
     (EmbedMany texts, Threw e) ∈ trace env' →
     (∀ ev, ev ∈ trace env' → isUpsert ev = false)
     ∧ embedded out = false
     ∧ message out
       = "Error processing document: " +:+ message_or e "Unknown error occurred"
     ∧ ∃ w3 w5,
         ticks B w w3
         ∧ ticks B (createIndex B indexName 768 "cosine" w3).2 w5
         ∧ embedMany B texts w5 = (inl e, world env'))
  ∧ (∀ i name vs mds ids o,
       trace env' !! i = Some (Upsert name vs mds ids, o) →
       ∃ j texts,
         (j < i)%nat
         ∧ trace env' !! j = Some (EmbedMany texts, Returned (RVectors vs))
         ∧ length texts = length ids).
Proof.
  intros Heq.
  pose proof (addDocumentTool_inv B L input w out env' Heq) as Hrun.
  pose proof (embedding_failure_world B L input w out env') as Hworld.
  specialize (λ texts e, Hworld texts e Heq). clear Heq.
  generalize dependent (trace env'). intros tr Hrun Hworld.
  destruct Hrun as [e0 Hc|doc' chunks o e0 Hc|doc' chunks o vs mds e0 Hc Hlen|
                    doc' chunks o vs mds Hc Hlen]; split.
  all: try (intros texts e Hin; trace_cases Hin; fail).
  - intros i name vs' mds' ids o' Hi. done.
  - intros texts e Hin. trace_cases Hin.
    split; [intros ev Hev; by trace_cases Hev|].
    split; [done|]. split; [done|].
    apply Hworld. right. by left.
  - intros i name vs' mds' ids o' Hi.
    by repeat (destruct i as [|i]; try discriminate Hi).
  - intros i name vs' mds' ids o' Hi.
    repeat (destruct i as [|i]; try discriminate Hi).
    injection Hi as <- <- <- <- <-.
    exists 1%nat, (map chunk_text chunks).
    split; [lia|]. split; [done|].
    unfold idsOf. by rewrite length_map, length_imap.
  - intros i name vs' mds' ids o' Hi.
    repeat (destruct i as [|i]; try discriminate Hi).
    injection Hi as <- <- <- <- <-.
    exists 1%nat, (map chunk_text chunks).
    split; [lia|]. split; [done|].
    unfold idsOf. by rewrite length_map, length_imap.
Qed.

Lemma embedding_failure_aborts_before_upsert_witness :
  let run := addDocumentTool Reference.backend Reference.docLib
               (addText "Mastra is a framework.") (start embedderDown) in
  run.1 = inr (failedOutput (ErrorObj "EmbeddingServiceError"))
  ∧ (∀ ev, ev ∈ trace run.2 → isUpsert ev = false)
  ∧ embedded (failedOutput (ErrorObj "EmbeddingServiceError")) = false
  ∧ message (failedOutput (ErrorObj "EmbeddingServiceError"))
    = "Error processing document: EmbeddingServiceError"
  ∧ ∃ w3 w5,
      ticks Reference.backend embedderDown w3
      ∧ ticks Reference.backend
              (createIndex Reference.backend indexName 768 "cosine" w3).2 w5
      ∧ embedMany Reference.backend ["Mastra is a framework."] w5
        = (inl (ErrorObj "EmbeddingServiceError"), world run.2).
Proof.
  intros run. split; [reflexivity|].
  apply (proj1 (embedding_failure_aborts_before_upsert
                  Reference.backend Reference.docLib
                  (addText "Mastra is a framework.") embedderDown
                  (failedOutput (ErrorObj "EmbeddingServiceError")) run.2
                  eq_refl)
               ["Mastra is a framework."] (ErrorObj "EmbeddingServiceError")).
  right. left.
Defined.

(** In the store of the specification, reading the clock, creating the
    index and a failing embedder leave every existing index as it was. *)
Lemma reference_ticks_indexes w w' :
  ticks Reference.backend w w' → Reference.indexes w' = Reference.indexes w.
Proof.
  induction 1 as [|w0 w1 _ IH]; [done|]. rewrite IH.
  cbn [dateNow Reference.backend]. unfold Reference.dateNow.
  by destruct (Reference.clock w0).
Qed.

Lemma reference_createIndex_keeps w name ix :
  Reference.indexes w !! name = Some ix →
  Reference.indexes (Reference.createIndex indexName 768 "cosine" w).2 !! name
  = Some ix.
Proof.
  intros Hix. unfold Reference.createIndex.
  destruct (Reference.indexes w !! indexName) eqn:Hk; cbn [snd]; [done|].
  unfold Reference.setIndexes. cbn [Reference.indexes].
  rewrite lookup_insert_ne; [done|]. intros <-. congruence.
Qed.

Lemma reference_failed_embedding_keeps_entries L input w out env' texts e
    name ix :
  addDocumentTool Reference.backend L input (start w) = (inr out, env') →
  (EmbedMany texts, Threw e) ∈ trace env' →
  Reference.indexes w !! name = Some ix →
  Reference.indexes (world env') !! name = Some ix.
Proof.
  intros Heq Hin Hix.
  destruct (embedding_failure_world _ _ _ _ _ _ _ _ Heq Hin)
    as (w3 & w5 & Ht3 & Ht5 & He).
  cbn [embedMany createIndex Reference.backend] in He, Ht5.
  unfold Reference.embedMany in He.
  destruct (Reference.embedderUp w5); [done|]. injection He as _ <-.
  rewrite (reference_ticks_indexes _ _ Ht5).
  apply reference_createIndex_keeps.
  by rewrite (reference_ticks_indexes _ _ Ht3).
Qed.



(** The run of the witness above, spelled out: four chunks, embedded in one
    call, stored under four ids in chunk order, each with the vector of its
    own chunk. *)
Lemma long_document_stored_in_chunk_order :
  let run := addDocumentTool Reference.backend Reference.docLib
               Extremes.longInput (start frozenClock) in
  (run.1 = inr {| documentId := JStr "doc-1700000000000";
                  chunksCreated := 4;
                  embedded := true;
                  message := successMessage 4 |})
  ∧ map fst (trace run.2)
    = [ createIndexCall;
        EmbedMany ["Mastra is a fram"; "framework for bu"; "r building AI ag";
                   "I agents."];
        Upsert indexName
          (map Reference.embedText
               ["Mastra is a fram"; "framework for bu"; "r building AI ag";
                "I agents."])
          (match trace run.2 !! 2%nat with
           | Some (Upsert _ _ mds _, _) => mds
           | _ => []
           end)
          [ "doc-1700000000000-chunk-0"; "doc-1700000000000-chunk-1";
            "doc-1700000000000-chunk-2"; "doc-1700000000000-chunk-3" ] ]
  ∧ (map (λ e, (Reference.e_id e, Reference.e_vector e))
       (default [] (Reference.ix_entries
                      <$> Reference.indexes (world run.2) !! indexName)))
    = [ ("doc-1700000000000-chunk-0", Reference.embedText "Mastra is a fram");
        ("doc-1700000000000-chunk-1", Reference.embedText "framework for bu");
        ("doc-1700000000000-chunk-2", Reference.embedText "r building AI ag");
        ("doc-1700000000000-chunk-3", Reference.embedText "I agents.") ].
Proof. intros run. repeat split; vm_compute; reflexivity. Qed.

(** C7, as stated, fails: nothing in the tool rejects the empty string.
    With the chunker of the specification ("if len(text) <= size, the
    result is a single chunk equal to the input") the call succeeds and one
    empty chunk is embedded and stored. *)
Lemma addDocument_empty_text_is_stored :
  let run := addDocumentTool Reference.backend Reference.docLib
               (addText "") (start frozenClock) in
  run.1 = inr {| documentId := JStr "doc-1700000000000";
                 chunksCreated := 1;
                 embedded := true;
                 message := successMessage 1 |}
  ∧ ∃ vs mds,
      (Upsert indexName vs mds ["doc-1700000000000-chunk-0"], Returned RUnit)
      ∈ trace run.2
      ∧ (EmbedMany [""], Returned (RVectors vs)) ∈ trace run.2.
Proof.
  intros run. split; [reflexivity|].
  eexists _, _. split.
  - right. right. left.
  - right. left.
Qed.

(** C7 (amended): [addDocument] validates nothing itself and never raises,
    for the empty string as for any text.  It returns the failed result
    ([documentId = "error"], [chunksCreated = 0], [embedded = false] and the
    message "Error processing document: <reason>") exactly when the
    chunker, the embedder or the upsert raised, and it otherwise succeeds
    with [chunksCreated] the number of chunks the chunker returned. *)
Theorem addDocument_never_raises {W} (B : Backend W) L input w :
  ∃ out env',
    addDocumentTool B L input (start w) = (inr out, env')
    ∧ ((∃ e,
          out = failedOutput e
          ∧ documentId out = JStr "error"
          ∧ chunksCreated out = 0
          ∧ embedded out = false
          ∧ message out
            = "Error processing document: "
              +:+ message_or e "Unknown error occurred"
          ∧ (chunked B L input w = inl e
             ∨ (∃ texts, (EmbedMany texts, Threw e) ∈ trace env')
             ∨ (∃ name vs mds ids,
                  (Upsert name vs mds ids, Threw e) ∈ trace env')))
       ∨ (∃ doc' chunks,
            chunked B L input w = inr (doc', chunks)
            ∧ embedded out = true
            ∧ chunksCreated out = Z.of_nat (length chunks)
            ∧ ∀ ev, ev ∈ trace env' → isEmbedMany ev || isUpsert ev = true →
                    ∃ v, ev.2 = Returned v)).
Proof.
  destruct (addDocumentTool_run B L input w) as (out & env' & Heq & Hrun & _).
  exists out, env'. split; [done|].
  generalize dependent (trace env'). intros tr Hrun. clear Heq.
  destruct Hrun as [e0 Hc|d chunks o e0 Hc|d chunks o vs mds e0 Hc Hlen|
                    d chunks o vs mds Hc Hlen].
  - left. exists e0. repeat (split; [done|]). by left.
  - left. exists e0. repeat (split; [done|]).
    right. left. eexists. right. by left.
  - left. exists e0. repeat (split; [done|]).
    right. right. eexists _, _, _, _. right. right. by left.
  - right. exists d, chunks. repeat (split; [done|]).
    intros ev Hev Hkind. trace_cases Hev; by eexists.
Qed.

Lemma append_inj_r (a b c : string) : a +:+ b = a +:+ c → b = c.
Proof.
  induction a as [|x a IH]; [done|].
  change (String x (a +:+ b) = String x (a +:+ c) → b = c).
  intros [= H]. by apply IH.
Qed.

Lemma generated_id_inj (t t' : Z) :
  JStr ("doc-" +:+ pretty t) = JStr ("doc-" +:+ pretty t') → t = t'.
Proof. intros [= H%append_inj_r]. by apply (inj pretty). Qed.

Lemma prop_insert (m : Metadata) k v : prop (<[ k := v ]> m) k = v.
Proof. unfold prop. by rewrite lookup_insert_eq. Qed.

Lemma truthy_generated (t : Z) : truthy (JStr ("doc-" +:+ pretty t)) = true.
Proof. done. Qed.

Lemma window_metadata (md : Metadata) (texts : list string) m :
  m ∈ map chunk_metadata
        (map (λ t, {| chunk_text := t; chunk_metadata := md |}) texts) →
  m = md.
Proof.
  induction texts as [|t texts IH]; simpl; intros Hin.
  - by apply elem_of_nil in Hin.
  - apply elem_of_cons in Hin as [->|Hin]; [done|by apply IH].
Qed.

(** The reference library hands the document id on to every chunk. *)
Lemma reference_inheritsId : inheritsId Reference.docLib.
Proof.
  intros text md args doc' chunks m Hchunk Hm. simpl in *.
  unfold Reference.split in Hchunk.
  destruct (_ && _); [|done]. injection Hchunk as <- <-.
  apply list_elem_of_lookup_2 in Hm. simpl in Hm.
  rewrite app_nil_r in Hm. unfold Reference.splitPart in Hm. simpl in Hm.
  by rewrite (window_metadata _ _ _ Hm).
Qed.

(** C6, as stated, fails: generated ids are [doc-<millisecond>], so two
    different calls within one millisecond get the same [documentId] (and
    the second overwrites the chunk of the first, which has the same chunk
    id). *)
Lemma generated_ids_collide :
  let first := addDocumentTool Reference.backend Reference.docLib
                 (addText "First document.") (start frozenClock) in
  let second := addDocumentTool Reference.backend Reference.docLib
                  (addText "Second document.") first.2 in
  ∃ out1 out2,
    first.1 = inr out1 ∧ second.1 = inr out2
    ∧ embedded out1 = true ∧ embedded out2 = true
    ∧ documentId out1 = JStr "doc-1700000000000"
    ∧ documentId out1 = documentId out2.
Proof. intros first second. eexists _, _. repeat split; reflexivity. Qed.

(** The caller's id does not survive either: the object literal of the
    tool sets [id] after spreading the caller's metadata. *)
Lemma caller_supplied_id_is_overwritten :
  (addDocumentTool Reference.backend Reference.docLib
     (addWithId "Mastra is a framework." "doc-sample-1") (start frozenClock)).1
  = inr {| documentId := JStr "doc-1700000000000";
           chunksCreated := 1;
           embedded := true;
           message := successMessage 1 |}.
Proof. reflexivity. Qed.

(** C6 (amended): for a successful [addDocument] call without a
    caller-supplied id, over a document library that hands the document id
    on to its chunks, the [documentId] of the result is the generated id
    [doc-<t>], where [t] is a reading of the millisecond clock taken during
    the call (the second, or the third when the document has no chunk);
    the id determines the reading, so two calls receive different generated
    ids exactly when their readings differ. *)
Theorem documentId_is_generated {W} (B : Backend W) L input w out env' :
  inheritsId L →
  default ∅ (in_metadata input) !! "id" = None →
  addDocumentTool B L input (start w) = (inr out, env') →
  embedded out = true →
  ∃ t,
    (t = reading B 1 w ∨ t = reading B 2 w)
    ∧ documentId out = JStr ("doc-" +:+ pretty t)
    ∧ ∀ t', documentId out = JStr ("doc-" +:+ pretty t') ↔ t' = t.
Proof.
  intros Hlib _ Hrun%addDocumentTool_inv Hemb.
  generalize dependent (trace env'). intros tr Hrun.
  destruct Hrun as [e0 Hc|d chunks o e0 Hc|d chunks o vs mds e0 Hc Hlen|
                    d chunks o vs mds Hc Hlen]; try discriminate Hemb.
  cbn [documentId]. unfold idOf.
  destruct (getMetadata L d !! 0%nat) as [m|] eqn:Hm.
  - rewrite (Hlib _ _ _ _ _ _ Hc Hm).
    unfold documentMetadata. rewrite prop_insert, truthy_generated.
    exists (reading B 1 w). split; [by left|]. split; [done|].
    intros t'. split; [intros H; symmetry; by apply generated_id_inj|by intros ->].
  - cbn [truthy].
    exists (reading B 2 w). split; [by right|]. split; [done|].
    intros t'. split; [intros H; symmetry; by apply generated_id_inj|by intros ->].
Qed.

Lemma documentId_is_generated_witness :
  ∃ t,
    (t = reading Reference.backend 1 tickingClock
     ∨ t = reading Reference.backend 2 tickingClock)
    ∧ JStr "doc-1700000000001" = JStr ("doc-" +:+ pretty t)
    ∧ ∀ t', JStr "doc-1700000000001" = JStr ("doc-" +:+ pretty t') ↔ t' = t.
Proof.
  apply (documentId_is_generated Reference.backend Reference.docLib
           (addText "Mastra is a framework.") tickingClock
           {| documentId := JStr "doc-1700000000001";
              chunksCreated := 1;
              embedded := true;
              message := successMessage 1 |}
           (addDocumentTool Reference.backend Reference.docLib
              (addText "Mastra is a framework.") (start tickingClock)).2).
  - apply reference_inheritsId.
  - reflexivity.
  - reflexivity.
  - reflexivity.
Defined.

Lemma ensureIndexTimes_returns {W} (B : Backend W) n env :
  ∃ env', ensureIndexTimes B n env = (inr tt, env').
Proof.
  revert env. induction n as [|n IH]; intros env; cbn [ensureIndexTimes].
  - by eexists.
  - rewrite bind_run.
    destruct (ensureIndex_run B env) as (o & w' & -> & _ & _). apply IH.
Qed.

Lemma reference_createIndex_existing w ix :
  Reference.indexes w !! indexName = Some ix →
  Reference.createIndex indexName 768 "cosine" w
  = (inl (ErrorObj "IndexAlreadyExists"), w).
Proof. intros H. unfold Reference.createIndex. by rewrite H. Qed.

Lemma reference_createIndex_exists w :
  is_Some (Reference.indexes
             (Reference.createIndex indexName 768 "cosine" w).2 !! indexName).
Proof.
  unfold Reference.createIndex.
  destruct (Reference.indexes w !! indexName) as [ix|] eqn:H; cbn [snd].
  - by rewrite H.
  - unfold Reference.setIndexes. cbn [Reference.indexes].
    rewrite lookup_insert_eq. by eexists.
Qed.

Lemma reference_ensureIndex_world env :
  world (ensureIndex Reference.backend env).2
  = (Reference.createIndex indexName 768 "cosine" (world env)).2.
Proof. by destruct (ensureIndex_run Reference.backend env) as (o & w' & -> & -> & _). Qed.

Lemma reference_ensureIndexTimes_existing n env ix :
  Reference.indexes (world env) !! indexName = Some ix →
  world (ensureIndexTimes Reference.backend n env).2 = world env.
Proof.
  revert env. induction n as [|n IH]; intros env Hix; cbn [ensureIndexTimes];
    [done|].
  rewrite bind_run.
  destruct (ensureIndex_run Reference.backend env) as (o & w' & -> & Hw & _).
  cbn [createIndex Reference.backend] in Hw.
  rewrite (reference_createIndex_existing _ _ Hix) in Hw. cbn [snd] in Hw.
  subst w'. by rewrite IH.
Qed.

(** C8: creating the index again is benign.  For every vector store the
    tool's index step returns normally, any number of times in a row, even
    if [createIndex] raises: the failure never reaches the ingestion
    caller.  With the store of the specification, in which creating an
    existing index raises the recoverable [IndexAlreadyExists] and changes
    nothing, repeated calls leave an existing index and its entries
    unchanged, and any number of calls has the effect of one. *)
Theorem createIndex_repeated_is_benign :
  (∀ W (B : Backend W) n env,
     ∃ env', ensureIndexTimes B n env = (inr tt, env'))
  ∧ (∀ w ix n,
       Reference.indexes w !! indexName = Some ix →
       world (ensureIndexTimes Reference.backend n (start w)).2 = w)
  ∧ (∀ w n,
       world (ensureIndexTimes Reference.backend (S n) (start w)).2
       = world (ensureIndex Reference.backend (start w)).2).
Proof.
  split; [|split].
  - intros W B n env. apply ensureIndexTimes_returns.
  - intros w ix n Hix.
    by rewrite (reference_ensureIndexTimes_existing n (start w) ix).
  - intros w n. cbn [ensureIndexTimes]. rewrite bind_run.
    pose proof (reference_ensureIndex_world (start w)) as Hw.
    change (world (start w)) with w in Hw.
    destruct (ensureIndex Reference.backend (start w)) as [[e|[]] env1] eqn:Heq.
    + by destruct (ensureIndex_run Reference.backend (start w))
        as (o & w' & Heq' & _ & _); rewrite Heq in Heq'.
    + cbn [snd] in *.
      destruct (reference_createIndex_exists w) as [ix Hix].
      rewrite <-Hw in Hix.
      by rewrite (reference_ensureIndexTimes_existing n env1 ix).
Qed.

Lemma createIndex_repeated_is_benign_witness :
  (∃ env', ensureIndexTimes Reference.backend 3 (start frozenClock)
           = (inr tt, env'))
  ∧ world (ensureIndexTimes Reference.backend 3 (start emptyIndex)).2
    = emptyIndex
  ∧ world (ensureIndexTimes Reference.backend 3 (start frozenClock)).2
    = world (ensureIndex Reference.backend (start frozenClock)).2.
Proof.
  pose proof createIndex_repeated_is_benign as (Hret & Hkeep & Honce).
  split; [|split].
  - apply Hret.
  - apply (Hkeep emptyIndex
             {| Reference.ix_dimension := 768; Reference.ix_metric := "cosine";
                Reference.ix_entries := [] |} 3%nat).
    reflexivity.
  - apply Honce.
Defined.

(** An ingestion into an index that already exists goes through: the
    second of two calls finds the index, [createIndex] raises, and the
    document is stored all the same. *)
Lemma ingestion_survives_existing_index :
  let first := addDocumentTool Reference.backend Reference.docLib
                 (addText "First document.") (start tickingClock) in
  let second := addDocumentTool Reference.backend Reference.docLib
                  (addText "Second document.") (start (world first.2)) in
  (createIndexCall, Threw (ErrorObj "IndexAlreadyExists")) ∈ trace second.2
  ∧ ∃ out, second.1 = inr out ∧ embedded out = true.
Proof.
  intros first second. split; [left|by eexists].
Qed.

End IngestResults.

(* ===================================================================== *)
(** ** Ingestion into the in-memory store                                 *)
(* ===================================================================== *)

Section KnowledgeBase.
Import SimpleStore Scenario.
Context {W : Type} (B : Backend W) (L : DocLib).

Lemma adds_ret {A} (a : A) (st : State W) : adds (ret a) st [].
Proof. unfold adds. simpl. by rewrite app_nil_r. Qed.

Lemma adds_bind {A A'} (m : M (State W) A) (k : A → M (State W) A') st evs :
  adds m st evs →
  (∀ a, (m st).1 = inr a → adds (k a) (m st).2 []) →
  adds (bind m k) st evs.
Proof.
  unfold adds. intros Hm Hk. rewrite bind_run.
  destruct (m st) as [[e|a] st'] eqn:Heq; cbn [fst snd] in *; [done|].
  rewrite (Hk a eq_refl), app_nil_r. done.
Qed.

Lemma adds_isoNow st : adds (liftEnv (isoNow B)) st [].
Proof. unfold adds, liftEnv. simpl. by rewrite app_nil_r. Qed.

Lemma adds_mapM_from {A A'} (f : A → nat → M (State W) A') l i st :
  (∀ x j s, adds (f x j) s []) → adds (mapM_from f i l) st [].
Proof.
  intros Hf. revert i st. induction l as [|x l IH]; intros i st;
    cbn [mapM_from]; [apply adds_ret|].
  apply adds_bind; [apply Hf|]. intros y _.
  apply adds_bind; [apply IH|]. intros ys _. apply adds_ret.
Qed.

Lemma adds_processDocument metadata docText i st :
  adds (processDocument B L metadata docText i) st [].
Proof.
  unfold processDocument. apply adds_bind.
  - unfold adds, lift_sum. simpl. by rewrite app_nil_r.
  - intros r _. apply adds_mapM_from. intros c j s.
    apply adds_bind; [apply adds_isoNow|]. intros t _. apply adds_ret.
Qed.

Lemma adds_forLoop (body : nat → M (State W) unit) i n st :
  (∀ j s, adds (body j) s []) → adds (forLoop body i n) st [].
Proof.
  intros Hb. revert i st. induction n as [|n IH]; intros i st;
    cbn [forLoop]; [apply adds_ret|].
  apply adds_bind; [apply Hb|]. intros _ _. apply IH.
Qed.

Lemma adds_addDocuments texts embeddings metadata st :
  adds (addDocuments B texts embeddings metadata) st [].
Proof.
  unfold addDocuments. apply adds_forLoop. intros j s. unfold addOne.
  apply adds_bind.
  - unfold adds, liftEnv. simpl. by rewrite app_nil_r.
  - intros t _. unfold adds. simpl. by rewrite app_nil_r.
Qed.

Lemma try_rethrow {St A} (body : M St A) st :
  try_catch body (fun error => throw error) st = body st.
Proof. unfold try_catch, throw. by destruct (body st) as [[e|a] st']. Qed.

(** The batch helper embeds all chunks of all documents in one call: a run
    adds no event when chunking fails, and otherwise exactly one
    [embedMany] call. *)
Lemma addDocumentsToKnowledgeBase_one_embedding docs metadata st :
  adds (addDocumentsToKnowledgeBase B L docs metadata) st []
  ∨ ∃ allChunks o,
      adds (addDocumentsToKnowledgeBase B L docs metadata) st
           [(EmbedMany allChunks, o)].
Proof.
  unfold addDocumentsToKnowledgeBase, adds. rewrite try_rethrow, bind_run.
  pose proof (adds_mapM_from (processDocument B L metadata) docs 0 st
                (adds_processDocument metadata)) as Hmap.
  unfold adds in Hmap. unfold mapM.
  destruct (mapM_from (processDocument B L metadata) 0 docs st)
    as [[e|perDoc] st1]; cbn [fst snd] in *; [by left|].
  right. rewrite app_nil_r in Hmap.
  rewrite bind_run. unfold liftEnv at 1. rewrite call_run. cbn [fst snd].
  match goal with
  | |- context [embedMany B ?v ?w0] => destruct (embedMany B v w0) as [[e|vs] w1]
  end; cbn [fst snd outcome_of env trace].
  - eexists _, _. by rewrite Hmap.
  - match goal with
    | |- context [addDocuments B ?a ?b ?c ?s] =>
        pose proof (adds_addDocuments a b c s) as Hadd
    end.
    unfold adds in Hadd. eexists _, _. rewrite Hadd. cbn [env trace].
    by rewrite Hmap, !app_nil_r.
Qed.

End KnowledgeBase.

Section StoreIds.
Import SimpleStore Scenario.

(** The ids of [SimpleVectorStore.addDocuments] are made of the clock and
    the position in the batch: two batches stored within one millisecond
    share their ids. *)
Lemma simple_store_ids_collide :
  let st0 := {| documents := []; env := start frozenClock |} in
  let st1 := (addDocuments Reference.backend ["first"] [[ofZ 1]] [∅] st0).2 in
  let st2 := (addDocuments Reference.backend ["second"] [[ofZ 1]] [∅] st1).2 in
  map doc_id (documents st2) = ["doc-1700000000000-0"; "doc-1700000000000-0"].
Proof. reflexivity. Qed.

End StoreIds.


(* ===================================================================== *)
(** ** Further properties of the similarity                               *)
(* ===================================================================== *)

Section SimilarityBounds.
Import SimpleStore Scenario.

(** X2: on vectors of one dimension the similarity is symmetric, whatever
    their values (both sides are NaN together). *)
Theorem cosineSimilarity_symmetric a b :
  length a = length b →
  cosineSimilarity a (Some b) = cosineSimilarity b (Some a).
Proof.
  intros Hlen. unfold cosineSimilarity.
  rewrite !dotProduct_dot by lia.
  by rewrite dot_comm, mul_comm.
Qed.

Lemma cosineSimilarity_symmetric_witness :
  cosineSimilarity east (Some [ofZ 3; ofZ 4])
  = cosineSimilarity [ofZ 3; ofZ 4] (Some east).
Proof. apply cosineSimilarity_symmetric. reflexivity. Defined.

End SimilarityBounds.

(* ===================================================================== *)
(** ** What the in-memory query returns                                   *)
(* ===================================================================== *)

Section QueryExtras.
Import SimpleStore Scenario.

Lemma scoreAll_inv_doc q docs results r :
  scoreAll q docs = inr results → r ∈ results →
  ∃ d, d ∈ docs ∧ id r = doc_id d ∧ metadata r = doc_metadata d
       ∧ cosineSimilarity q (doc_embedding d) = inr (score r).
Proof.
  revert results. induction docs as [|d' docs IH]; intros results Hs Hin.
  - injection Hs as <-. by apply elem_of_nil in Hin.
  - simpl in Hs.
    destruct (cosineSimilarity q (doc_embedding d')) as [|s'] eqn:Hc; [done|].
    destruct (scoreAll q docs) as [|rest]; [done|].
    injection Hs as <-.
    apply elem_of_cons in Hin as [->|Hin].
    + exists d'. split; [by left|done].
    + destruct (IH rest eq_refl Hin) as (d & ? & ?).
      exists d. split; [by right|done].
Qed.

(** What [query] returns: every returned entry is a stored document (its
    id and metadata) whose embedding is not shorter than the query; its
    score is the similarity of the two vectors, a binary64 number above
    0.1; neither vector is a zero vector. *)
Lemma query_entry_inv docs q topK out r :
  query docs q topK = inr out → r ∈ out →
  ∃ d v,
    d ∈ docs ∧ id r = doc_id d ∧ metadata r = doc_metadata d
    ∧ doc_embedding d = Some v
    ∧ (length q ≤ length v)%nat ∧ ¬ allzero q ∧ ¬ allzero v
    ∧ score r = cosine q v
    ∧ score r ≠ nan ∧ valid (score r) = true ∧ gtb (score r) tenth = true.
Proof.
  unfold query. destruct (scoreAll q docs) as [e|results] eqn:Hres; [done|].
  intros [= <-] [Habove Hr]%list_elem_of_filter.
  apply ranked_subset in Hr.
  destruct (scoreAll_inv_doc q docs results r Hres Hr)
    as (d & Hd & Hid & Hmd & Hc).
  destruct (doc_embedding d) as [v|] eqn:Hv; [|done].
  exists d, v. do 4 (split; [done|]).
  unfold aboveThreshold in Habove. apply Is_true_true in Habove.
  assert (score r ≠ nan) as Hnan.
  { intros Hn. by rewrite Hn, gtb_nan_l in Habove. }
  assert (length q ≤ length v)%nat as Hlen.
  { destruct (decide (length q ≤ length v)%nat) as [|Hn]; [done|].
    rewrite cosineSimilarity_short in Hc by lia. congruence. }
  split; [done|]. split.
  { intros Hz. rewrite (cosineSimilarity_zero_l q v Hz) in Hc. congruence. }
  split.
  { intros Hz. rewrite (cosineSimilarity_zero_r q v Hz) in Hc. congruence. }
  split.
  { rewrite cosineSimilarity_defined in Hc by done. congruence. }
  split; [done|]. split; [|done].
  by eapply cosineSimilarity_valid.
Qed.

(** X4: what [query] returns.  Every returned entry is a stored document
    (its id and metadata) whose embedding is not shorter than the query;
    neither the query nor the embedding is a zero vector; the score is the
    similarity of the two vectors as binary64 computes it, a number above
    0.1 and never NaN. *)
Theorem query_returns_stored_matches docs q topK out r :
  query docs q topK = inr out → r ∈ out →
  ∃ d v,
    d ∈ docs ∧ id r = doc_id d ∧ metadata r = doc_metadata d
    ∧ doc_embedding d = Some v
    ∧ (length q ≤ length v)%nat ∧ ¬ allzero q ∧ ¬ allzero v
    ∧ score r = cosine q v
    ∧ score r ≠ nan ∧ valid (score r) = true ∧ gtb (score r) tenth = true.
Proof. apply query_entry_inv. Qed.

Lemma query_returns_stored_matches_witness :
  ∃ d v,
    d ∈ allDefined ∧ "a" = doc_id d ∧ (∅ : Metadata) = doc_metadata d
    ∧ doc_embedding d = Some v
    ∧ (length east ≤ length v)%nat ∧ ¬ allzero east ∧ ¬ allzero v
    ∧ div (ofZ 3) (ofZ 5) = cosine east v
    ∧ div (ofZ 3) (ofZ 5) ≠ nan ∧ valid (div (ofZ 3) (ofZ 5)) = true
    ∧ gtb (div (ofZ 3) (ofZ 5)) tenth = true.
Proof.
  apply (query_returns_stored_matches allDefined east (Some 5)
           [entry "b" one; entry "a" (div (ofZ 3) (ofZ 5))]
           (entry "a" (div (ofZ 3) (ofZ 5)))).
  - reflexivity.
  - right. by left.
Defined.

(** One stored document without an embedding makes every query on the
    store throw the TypeError of the property read on [undefined]. *)
Lemma query_throws_on_missing_embedding docs q topK d :
  d ∈ docs → doc_embedding d = None →
  query docs q topK
  = inl (typeError (match q with [] => "reduce" | _ => "0" end)).
Proof.
  intros Hd Hnone. unfold query.
  assert (scoreAll q docs
          = inl (typeError (match q with [] => "reduce" | _ => "0" end))) as ->;
    [|done].
  induction docs as [|d' docs IH]; [by apply elem_of_nil in Hd|].
  cbn [scoreAll].
  destruct (doc_embedding d') as [v|] eqn:Hv.
  - apply elem_of_cons in Hd as [->|Hd]; [congruence|].
    cbn [cosineSimilarity]. by rewrite (IH Hd).
  - done.
Qed.

End QueryExtras.

(* ===================================================================== *)
(** ** Writing to the in-memory store                                     *)
(* ===================================================================== *)

Section StoreWrites.
Import SimpleStore Scenario.
Context {W : Type} (B : Backend W).

(** The document that iteration [i] of [addDocuments] pushes, given the
    reading [t] of the clock. *)
Lemma addOne_run texts embeddings metadata i (st : State W) :
  addOne B texts embeddings metadata i st
  = (inr tt,
     {| documents :=
          documents st ++
          [{| doc_id := "doc-" +:+ pretty (dateNow B (world (env st))).1
                        +:+ "-" +:+ pretty (Z.of_nat i);
              doc_embedding := embeddings !! i;
              doc_metadata :=
                default ∅ (metadata !! i)
                ∪ {[ "text" := default JUndefined (JStr <$> texts !! i) ]} |}];
        env := {| world := (dateNow B (world (env st))).2;
                  trace := trace (env st) |} |}).
Proof. done. Qed.

Lemma forLoop_addOne texts embeddings metadata n i (st : State W) :
  ∃ news st',
    forLoop (addOne B texts embeddings metadata) i n st = (inr tt, st')
    ∧ documents st' = documents st ++ news
    ∧ length news = n
    ∧ trace (env st') = trace (env st)
    ∧ ∀ j, (j < n)%nat →
           ∃ d, news !! j = Some d ∧ storedAs texts embeddings metadata (i + j) d.
Proof.
  revert i st. induction n as [|n IH]; intros i st; cbn [forLoop].
  - exists [], st. split; [done|]. split; [by rewrite app_nil_r|].
    split; [done|]. split; [done|]. intros j Hj. lia.
  - rewrite bind_run, addOne_run.
    match goal with
    | |- context [forLoop _ (S i) n ?s] =>
        destruct (IH (S i) s) as (news & st' & -> & Hdocs & Hlen & Htr & Hnews)
    end.
    cbn [documents env trace] in Hdocs, Htr.
    eexists (_ :: news), st'. split; [done|].
    split; [by rewrite Hdocs, <-app_assoc|].
    split; [simpl; by rewrite Hlen|]. split; [done|].
    intros [|j] Hj.
    + eexists. split; [done|]. rewrite Nat.add_0_r.
      split; [done|]. split; [by eexists|done].
    + destruct (Hnews j) as (d & Hd & Hst); [lia|].
      exists d. split; [done|]. by replace (i + S j)%nat with (S i + j)%nat by lia.
Qed.

Lemma addDocuments_run texts embeddings metadata (st : State W) :
  ∃ news st',
    addDocuments B texts embeddings metadata st = (inr tt, st')
    ∧ documents st' = documents st ++ news
    ∧ length news = length texts
    ∧ trace (env st') = trace (env st)
    ∧ ∀ j, (j < length texts)%nat →
           ∃ d, news !! j = Some d ∧ storedAs texts embeddings metadata j d.
Proof. apply forLoop_addOne. Qed.

(** X6: [addDocuments] never throws and only appends: the documents stored
    before stay in place, one entry is added per text, in order, with the
    embedding at the same position (none when the embeddings run out) and
    an id [doc-<clock>-<position>]; every key of the caller's metadata is
    kept as given, and [text] is the chunk text unless the caller's
    metadata has a [text] of its own. *)
Theorem addDocuments_appends texts embeddings metadata (st : State W) :
  ∃ news st',
    addDocuments B texts embeddings metadata st = (inr tt, st')
    ∧ documents st' = documents st ++ news
    ∧ length news = length texts
    ∧ ∀ i t, texts !! i = Some t →
        ∃ d, news !! i = Some d
             ∧ doc_embedding d = embeddings !! i
             ∧ (∃ ts : Z, doc_id d
                          = "doc-" +:+ pretty ts +:+ "-" +:+ pretty (Z.of_nat i))
             ∧ (∀ k v, default ∅ (metadata !! i) !! k = Some v →
                       doc_metadata d !! k = Some v)
             ∧ (default ∅ (metadata !! i) !! "text" = None →
                doc_metadata d !! "text" = Some (JStr t)).
Proof.
  destruct (addDocuments_run texts embeddings metadata st)
    as (news & st' & Heq & Hdocs & Hlen & _ & Hnews).
  exists news, st'. do 3 (split; [done|]).
  intros i t Ht.
  destruct (Hnews i) as (d & Hd & Hemb & Hid & Hmd);
    [by eapply lookup_lt_Some|].
  exists d. do 3 (split; [done|]). rewrite Hmd, Ht. cbn [fmap option_fmap option_map default].
  split.
  - intros k v Hk. by apply lookup_union_Some_l.
  - intros Hno. rewrite lookup_union_r by done. by rewrite lookup_singleton_eq.
Qed.

(** X7: a batch with fewer embeddings than texts poisons the store: the
    texts beyond the embeddings are stored without an embedding, and every
    later query throws. *)
Theorem addDocuments_short_embeddings_break_query texts embeddings metadata
    (st : State W) q topK :
  (length embeddings < length texts)%nat →
  query (documents (addDocuments B texts embeddings metadata st).2) q topK
  = inl (typeError (match q with [] => "reduce" | _ => "0" end)).
Proof.
  intros Hshort.
  destruct (addDocuments_run texts embeddings metadata st)
    as (news & st' & -> & Hdocs & Hlen & _ & Hnews).
  cbn [snd]. rewrite Hdocs.
  destruct (Hnews (length embeddings) Hshort) as (d & Hd & Hemb & _).
  apply (query_throws_on_missing_embedding _ q topK d).
  - apply elem_of_app. right. by eapply list_elem_of_lookup_2.
  - rewrite Hemb. by apply lookup_ge_None_2.
Qed.

End StoreWrites.

Lemma addDocuments_short_embeddings_break_query_witness :
  SimpleStore.query
    (SimpleStore.documents
       (SimpleStore.addDocuments Reference.backend ["a"; "b"] [[ofZ 1]] []
          {| SimpleStore.documents := [];
             SimpleStore.env := start Scenario.frozenClock |}).2)
    Scenario.east None
  = inl (typeError "0").
Proof.
  apply (addDocuments_short_embeddings_break_query Reference.backend
           ["a"; "b"] [[ofZ 1]] []).
  simpl. lia.
Defined.

(* ===================================================================== *)
(** ** The in-memory search tool and the batch loader                     *)
(* ===================================================================== *)

Section SimpleToolExtras.
Import SimpleStore Scenario.
Context {W : Type} (B : Backend W) (L : DocLib).

Lemma query_length_le docs q topK out :
  0 ≤ topK → query docs q (Some topK) = inr out → Z.of_nat (length out) ≤ topK.
Proof.
  intros Hk. unfold query. destruct (scoreAll q docs) as [e|results]; [done|].
  intros [= <-]. change (default 5 (Some topK)) with topK.
  unfold ranked. rewrite slice_0_take by done.
  match goal with
  | |- Z.of_nat (length (filter ?P ?l)) ≤ _ =>
      pose proof (length_filter P l) as Hlen
  end.
  rewrite length_take in Hlen. lia.
Qed.

Lemma truthy_above s : gtb s tenth = true → JsNum.truthy s = true.
Proof. by destruct s as [[]|[]| |[] m e]. Qed.

Lemma toSource_fields r i :
  gtb (score r) tenth = true →
  src_score (toSource r i) = score r
  ∧ src_metadata (toSource r i) = metadata r
  ∧ truthy (src_content (toSource r i)) = true
  ∧ (id r ≠ "" → src_id (toSource r i) = id r).
Proof.
  intros Hs. unfold toSource. cbn [src_score src_metadata src_content src_id].
  rewrite (truthy_above _ Hs).
  split; [done|]. split; [done|]. split.
  - unfold or_else. by destruct (truthy (prop (metadata r) "text")) eqn:Ht.
  - intros Hid. destruct (String.eqb_spec (id r) ""); done.
Qed.

(** X8: the in-memory search tool never raises and never changes the
    store.  When the embedding or the query throws, the answer has no
    source and a context that quotes the message.  When the query returns
    nothing, the answer is the sentence "No relevant documents found for
    the given query." without sources.  Otherwise there is one source per
    query result, in order, at most [maxResults] of them for a
    non-negative limit, each with the metadata and the score of its result
    (a score above 0.1, so the fallback [|| 0] never applies) and a content
    that is never empty; the context joins the contents. *)
Theorem simple_ragSearchTool_answers q maxResults (st : State W) :
  let failed (e : Thrown) :=
    {| relevantContext :=
         "Error occurred while searching the knowledge base: "
         +:+ message_or e "Unknown error"
         +:+ ". Please try rephrasing your question.";
       sources := [] |} in
  ∃ out st',
    ragSearchTool B q maxResults st = (inr out, st')
    ∧ documents st' = documents st
    ∧ match (embed B q (world (env st))).1 with
      | inl e => out = failed e
      | inr queryEmbedding =>
          match query (documents st) queryEmbedding
                  (Some (default 5 maxResults)) with
          | inl e => out = failed e
          | inr results =>
              (results = [] →
               out = {| relevantContext :=
                          "No relevant documents found for the given query.";
                        sources := [] |})
              ∧ (results ≠ [] →
                 relevantContext out
                 = join contextSeparator
                     (map (λ s, join_item (src_content s)) (sources out)))
              ∧ length (sources out) = length results
              ∧ (0 ≤ default 5 maxResults →
                 Z.of_nat (length (sources out)) ≤ default 5 maxResults)
              ∧ ∀ i r, results !! i = Some r →
                  ∃ s, sources out !! i = Some s
                       ∧ src_score s = score r
                       ∧ src_metadata s = metadata r
                       ∧ gtb (src_score s) tenth = true
                       ∧ truthy (src_content s) = true
          end
      end.
Proof.
  intros failed.
  unfold ragSearchTool, try_catch. rewrite bind_run. unfold liftEnv at 1.
  rewrite call_run.
  destruct (embed B q (world (env st))) as [[e|v] w1]; cbn [fst snd].
  { by eexists _, _. }
  rewrite bind_run. cbn [documents].
  destruct (query (documents st) v (Some (default 5 maxResults)))
    as [e|results] eqn:Hq.
  { by eexists _, _. }
  destruct results as [|r0 results'] eqn:Hres.
  { eexists _, _. split; [done|]. split; [done|]. cbn [sources length].
    split; [done|]. split; [done|]. split; [done|].
    split; [simpl; lia|]. intros i r Hr. done. }
  rewrite <-Hres in *.
  assert ((length results =? 0)%nat = false) as ->.
  { rewrite Hres. done. }
  eexists _, _. split; [done|]. split; [done|].
  cbn [sources relevantContext].
  split; [by rewrite Hres|]. split; [done|].
  split; [by rewrite length_imap|]. split.
  - intros Hk. rewrite length_imap. by eapply query_length_le.
  - intros i r Hr. rewrite list_lookup_imap, Hr. cbn [fmap option_fmap option_map].
    eexists. split; [done|].
    apply list_elem_of_lookup_2 in Hr.
    destruct (query_entry_inv _ _ _ _ _ Hq Hr)
      as (d & u & _ & _ & _ & _ & _ & _ & _ & _ & _ & _ & Habove).
    destruct (toSource_fields r i Habove) as (H1 & H2 & H3 & _).
    rewrite H1. done.
Qed.

(** Keeping the documents: the steps that only read the clock, chunk or
    embed leave [documents] alone. *)
Lemma docs_bind {A A'} (m : M (State W) A) (k : A → M (State W) A') st :
  documents (m st).2 = documents st →
  (∀ a st1, documents (k a st1).2 = documents st1) →
  documents (bind m k st).2 = documents st.
Proof.
  intros Hm Hk. rewrite bind_run.
  destruct (m st) as [[e|a] st1]; cbn [snd] in *; [done|].
  by rewrite Hk.
Qed.

Lemma docs_liftEnv {A} (m : M (Env W) A) (st : State W) :
  documents (liftEnv m st).2 = documents st.
Proof. unfold liftEnv. by destruct (m (env st)). Qed.

Lemma docs_mapM_from {A A'} (f : A → nat → M (State W) A') l i st :
  (∀ x j s, documents (f x j s).2 = documents s) →
  documents (mapM_from f i l st).2 = documents st.
Proof.
  intros Hf. revert i st. induction l as [|x l IH]; intros i st;
    cbn [mapM_from]; [done|].
  apply docs_bind; [apply Hf|]. intros y st1.
  apply docs_bind; [apply IH|]. done.
Qed.

Lemma docs_processDocument metadata docText i st :
  documents (processDocument B L metadata docText i st).2 = documents st.
Proof.
  unfold processDocument. apply docs_bind; [done|]. intros r st1.
  apply docs_mapM_from. intros c j s.
  apply docs_bind; [apply docs_liftEnv|]. done.
Qed.

Lemma knowledgeBase_eval docs metadata (st : State W) :
  addDocumentsToKnowledgeBase B L docs metadata st
  = match mapM_from (processDocument B L metadata) 0 docs st with
    | (inl e, st1) => (inl e, st1)
    | (inr perDoc, st1) =>
        let texts := map fst (concat perDoc) in
        match embedMany B texts (world (env st1)) with
        | (inl e, w1) =>
            (inl e,
             {| documents := documents st1;
                env := {| world := w1;
                          trace := trace (env st1)
                                   ++ [(EmbedMany texts, Threw e)] |} |})
        | (inr vs, w1) =>
            addDocuments B texts vs (map snd (concat perDoc))
              {| documents := documents st1;
                 env := {| world := w1;
                           trace := trace (env st1)
                                    ++ [(EmbedMany texts,
                                         Returned (RVectors vs))] |} |}
        end
    end.
Proof.
  unfold addDocumentsToKnowledgeBase. rewrite try_rethrow, bind_run.
  unfold mapM.
  destruct (mapM_from (processDocument B L metadata) 0 docs st)
    as [[e|perDoc] st1]; [done|].
  rewrite bind_run. unfold liftEnv at 1. rewrite call_run. cbn zeta.
  by destruct (embedMany B (map fst (concat perDoc)) (world (env st1)))
    as [[e|vs] w1].
Qed.

Lemma knowledgeBase_run docs metadata (st : State W) :
  let run := addDocumentsToKnowledgeBase B L docs metadata st in
  match run.1 with
  | inl e => documents run.2 = documents st
  | inr _ =>
      ∃ news allChunks vs,
        documents run.2 = documents st ++ news
        ∧ length news = length allChunks
        ∧ (EmbedMany allChunks, Returned (RVectors vs)) ∈ trace (env run.2)
        ∧ ∀ i d, news !! i = Some d → doc_embedding d = vs !! i
  end.
Proof.
  cbn zeta. rewrite knowledgeBase_eval.
  pose proof (docs_mapM_from (processDocument B L metadata) docs 0 st
                (docs_processDocument metadata)) as Hmap.
  destruct (mapM_from (processDocument B L metadata) 0 docs st)
    as [[e|perDoc] st1]; cbn [fst snd] in *; [done|].
  cbn zeta.
  destruct (embedMany B (map fst (concat perDoc)) (world (env st1)))
    as [[e|vs] w1]; cbn [fst snd documents]; [done|].
  match goal with
  | |- context [addDocuments B ?a ?b ?c ?s] =>
      destruct (addDocuments_run B a b c s)
        as (news & st' & -> & Hdocs & Hlen & Htr & Hnews)
  end.
  cbn [fst snd documents env trace] in *.
  eexists news, _, vs. split; [by rewrite Hdocs, Hmap|].
  split; [done|]. split.
  - rewrite Htr. apply elem_of_app. right. by left.
  - intros i d Hd.
    destruct (Hnews i) as (d' & Hd' & Hemb & _);
      [rewrite <-Hlen; by eapply lookup_lt_Some|].
    congruence.
Qed.

(** X9: [addDocumentsToKnowledgeBase] writes all or nothing.  When it
    throws (chunking or embedding failed) the store is as before; when it
    returns, the store has grown by one entry per chunk text sent to the
    one embedding call, each with the embedding returned at its position. *)
Theorem addDocumentsToKnowledgeBase_all_or_nothing docs metadata (st : State W) :
  let run := addDocumentsToKnowledgeBase B L docs metadata st in
  match run.1 with
  | inl e => documents run.2 = documents st
  | inr _ =>
      ∃ news allChunks vs,
        documents run.2 = documents st ++ news
        ∧ length news = length allChunks
        ∧ (EmbedMany allChunks, Returned (RVectors vs)) ∈ trace (env run.2)
        ∧ ∀ i d, news !! i = Some d → doc_embedding d = vs !! i
  end.
Proof. apply knowledgeBase_run. Qed.

(** X10: [initializeSampleData] of the in-memory variant never raises; a
    failure while loading the samples is swallowed and leaves the store as
    it was. *)
Theorem simple_initializeSampleData_swallows (st : State W) :
  ∃ st',
    SimpleSamples.initializeSampleData B L st = (inr tt, st')
    ∧ ((∃ e, (addDocumentsToKnowledgeBase B L SimpleSamples.sampleDocuments
                (Some SimpleSamples.sampleMetadata) st).1 = inl e) →
       documents st' = documents st).
Proof.
  unfold SimpleSamples.initializeSampleData, try_catch.
  pose proof (knowledgeBase_run
                SimpleSamples.sampleDocuments
                (Some SimpleSamples.sampleMetadata) st) as Hall.
  cbn zeta in Hall.
  destruct (addDocumentsToKnowledgeBase B L SimpleSamples.sampleDocuments
              (Some SimpleSamples.sampleMetadata) st) as [[e|[]] st1];
    cbn [fst snd] in *.
  - eexists. split; [done|]. done.
  - eexists. split; [done|]. by intros [e He].
Qed.

End SimpleToolExtras.

(* ===================================================================== *)
(** ** Further properties of the tools over the external index            *)
(* ===================================================================== *)

Section ToolExtras.
Import RagTools Scenario.
Context {W : Type} (B : Backend W) (L : DocLib).

Lemma or_else_truthy a b : truthy b = true → truthy (or_else a b) = true.
Proof. intros Hb. unfold or_else. by destruct (truthy a) eqn:Ha. Qed.

Lemma resultSource_content_truthy r : truthy (src_content (resultSource r)) = true.
Proof. unfold resultSource. cbn [src_content]. by apply or_else_truthy. Qed.

(** When the embedding of the query fails, the index is never queried. *)
Lemma ragSearchTool_embedding_failure_skips_query input env e w1 :
  embedMany B [query input] (world env) = (inl e, w1) →
  ragSearchTool B input env
  = (inr (fallbackOutput (query input) e),
     {| world := w1;
        trace := trace env ++ [(EmbedMany [query input], Threw e)] |}).
Proof.
  intros Hembed. unfold ragSearchTool, try_catch.
  by rewrite bind_run, call_run, Hembed.
Qed.

(** X11: invariants of every answer of the search tool.  [totalFound] is
    the number of sources and every source has a non-empty content.  With
    [searchPerformed = true] the trace is the embedding followed by the
    query, both returned, and the sources carry the ids and scores of the
    results in their order; with [searchPerformed = false] the answer is
    the fallback of the error of the embedding, after which the index was
    not queried, or of the error of the query. *)
Theorem ragSearchTool_answer_invariants input env :
  ∃ out env',
    ragSearchTool B input env = (inr out, env')
    ∧ totalFound out = Z.of_nat (length (sources out))
    ∧ (∀ s, s ∈ sources out → truthy (src_content s) = true)
    ∧ (searchPerformed out = true →
       ∃ qe rs,
         trace env'
         = trace env
           ++ [ (EmbedMany [query input], Returned (RVectors qe));
                (Query (queryArgs input qe), Returned (RResults rs)) ]
         ∧ map src_id (sources out) = map qr_id rs
         ∧ map src_score (sources out) = map qr_score rs)
    ∧ (searchPerformed out = false →
       ∃ e, out = fallbackOutput (query input) e
            ∧ (trace env' = trace env ++ [(EmbedMany [query input], Threw e)]
               ∨ ∃ qe,
                   trace env'
                   = trace env
                     ++ [ (EmbedMany [query input], Returned (RVectors qe));
                          (Query (queryArgs input qe), Threw e) ])).
Proof.
  unfold ragSearchTool, try_catch. rewrite bind_run, call_run.
  destruct (embedMany B [query input] (world env)) as [[e|qe] w1];
    cbn [fst snd outcome_of].
  { eexists _, _. split; [done|]. split; [done|]. split.
    - intros s Hs. apply list_elem_of_singleton in Hs as ->. done.
    - split; [done|]. intros _. exists e. split; [done|by left]. }
  rewrite bind_run, call_run. cbn [world trace].
  destruct (storeQuery B (queryArgs input qe) w1) as [[e|rs] w2];
    cbn [fst snd outcome_of].
  { eexists _, _. split; [done|]. split; [done|]. split.
    - intros s Hs. apply list_elem_of_singleton in Hs as ->. done.
    - split; [done|]. intros _. exists e. split; [done|].
      right. exists qe. cbn [trace]. by rewrite <-app_assoc. }
  eexists _, _. split; [done|]. cbn [sources totalFound searchPerformed trace].
  split; [by rewrite length_map|]. split.
  - intros s (r & -> & _)%list_elem_of_fmap. apply resultSource_content_truthy.
  - split; [|done]. intros _. exists qe, rs.
    split; [by rewrite <-app_assoc|].
    split; by rewrite <-list_fmap_compose.
Qed.

(** The records built for the chunks, position by position. *)
Lemma mapM_from_records (f : Chunk → nat → string → Metadata) chunks i env :
  ∃ mds env',
    mapM_from (fun c index => addedAt <- isoNow B ;; ret (f c index addedAt))
              i chunks env = (inr mds, env')
    ∧ trace env' = trace env
    ∧ ∀ j c, chunks !! j = Some c →
             ∃ addedAt, mds !! j = Some (f c (i + j)%nat addedAt).
Proof.
  revert i env. induction chunks as [|c chunks IH]; intros i env.
  - exists [], env. split; [done|]. split; [done|]. intros j c Hc. done.
  - destruct (IH (S i) {| world := (dateNow B (world env)).2;
                          trace := trace env |})
      as (mds & env' & Heq & Htr & Hmds).
    eexists (_ :: mds), env'. split; [|split; [done|]].
    { cbn [mapM_from]. erewrite bind_inr; [|by rewrite bind_run, isoNow_run].
      by erewrite bind_inr. }
    intros [|j] c' Hc'.
    + injection Hc' as <-. rewrite Nat.add_0_r. by eexists.
    + destruct (Hmds j c' Hc') as (a & Ha). exists a.
      by replace (i + S j)%nat with (S i + j)%nat by lia.
Qed.

(** The arguments of the upsert of a run of [addDocumentTool]. *)
Lemma addDocumentTool_upsert input w out env' name vs mds ids o :
  addDocumentTool B L input (start w) = (inr out, env') →
  (Upsert name vs mds ids, o) ∈ trace env' →
  ∃ doc' chunks,
    chunked B L input w = inr (doc', chunks)
    ∧ ids = idsOf B L w doc' chunks
    ∧ ∀ i c, chunks !! i = Some c →
             ∃ addedAt,
               mds !! i = Some (chunkRecord (idOf B L w doc') c i addedAt).
Proof.
  unfold addDocumentTool, try_catch.
  rewrite bind_run, isoNow_run. cbn [start world trace].
  rewrite bind_run, freshId_run. cbn [world trace].
  rewrite bind_run, lift_sum_run.
  change (chunk L _ _) with (chunked B L input w).
  destruct (chunked B L input w) as [e|[doc' chunks]] eqn:Hchunk.
  { intros [= <- <-] Hin. by apply elem_of_nil in Hin. }
  cbn [fst snd]. rewrite bind_run.
  match goal with
  | |- context [chooseDocumentId B _ ?env] =>
      destruct (chooseDocumentId_run B L doc' env w eq_refl)
        as (env3 & -> & Htr3 & _)
  end.
  cbn [world trace] in Htr3.
  rewrite bind_run.
  destruct (ensureIndex_run B env3) as (o1 & w4 & -> & _ & _).
  rewrite bind_run. unfold mapM.
  match goal with
  | |- context [mapM_from ?f 0 chunks ?env] =>
      destruct (mapM_from_records (chunkRecord (idOf B L w doc')) chunks 0 env)
        as (mds' & env5 & -> & Htr5 & Hmds)
  end.
  cbn [world trace] in Htr5. rewrite Htr3 in Htr5. cbn [app] in Htr5.
  rewrite bind_run, call_run.
  destruct (embedMany B (map chunk_text chunks) (world env5)) as [[e|vs'] w6];
    cbn [fst snd outcome_of].
  { intros [= <- <-] Hin. cbn [trace] in Hin. rewrite Htr5 in Hin.
    unfold createIndexCall in Hin.
    repeat (apply elem_of_cons in Hin as [Hin|Hin]; [simplify_eq|]).
    by apply elem_of_nil in Hin. }
  rewrite bind_run, call_run. cbn [world trace].
  match goal with
  | |- context [upsert B ?a ?b ?c ?d ?e] =>
      destruct (upsert B a b c d e) as [[e'|[]] w7]
  end; cbn [fst snd outcome_of].
  all: intros [= <- <-] Hin; cbn [trace] in Hin; rewrite Htr5 in Hin;
    unfold createIndexCall in Hin;
    repeat (apply elem_of_cons in Hin as [Hin|Hin]; [simplify_eq|]);
    try (by apply elem_of_nil in Hin).
  all: exists doc', chunks; split; [done|]; split; [done|].
  all: intros i c Hc; destruct (Hmds i c Hc) as (a & Ha); by exists a.
Qed.

Lemma chunkId_inj docId i j : chunkId docId i = chunkId docId j → i = j.
Proof.
  unfold chunkId. intros H%append_inj_r%append_inj_r.
  apply (inj pretty) in H. lia.
Qed.

Lemma NoDup_imap_inj {A} (f : nat → string) (l : list A) :
  (∀ i j, f i = f j → i = j) → NoDup (imap (λ i _, f i) l).
Proof.
  intros Hf. apply NoDup_alt. intros i j x Hi Hj.
  rewrite list_lookup_imap in Hi, Hj.
  destruct (l !! i); [|done]. destruct (l !! j); [|done].
  simpl in *. apply Hf. congruence.
Qed.

(** X12: what an upsert of [addDocumentTool] writes.  The chunk ids are
    pairwise distinct, one per chunk.  The record of chunk [i] holds the
    text of the chunk under [text], the document id under [documentId] and
    [i] under [chunkIndex], whatever the chunker had put under these keys,
    and keeps every other key of the chunk's metadata except [addedAt]. *)
Theorem addDocumentTool_upsert_records input w out env' name vs mds ids o :
  addDocumentTool B L input (start w) = (inr out, env') →
  (Upsert name vs mds ids, o) ∈ trace env' →
  ∃ doc' chunks,
    chunked B L input w = inr (doc', chunks)
    ∧ NoDup ids ∧ length ids = length chunks
    ∧ ∀ i c, chunks !! i = Some c →
        ∃ m, mds !! i = Some m
             ∧ m !! "text" = Some (JStr (chunk_text c))
             ∧ m !! "documentId" = Some (idOf B L w doc')
             ∧ m !! "chunkIndex" = Some (JInt (Z.of_nat i))
             ∧ ∀ k, k ≠ "text" → k ≠ "documentId" → k ≠ "chunkIndex" →
                    k ≠ "addedAt" → m !! k = chunk_metadata c !! k.
Proof.
  intros Hrun Hin.
  destruct (addDocumentTool_upsert _ _ _ _ _ _ _ _ _ Hrun Hin)
    as (doc' & chunks & Hchunk & -> & Hmds).
  exists doc', chunks. split; [done|]. unfold idsOf.
  split; [apply NoDup_imap_inj, chunkId_inj|]. split; [by rewrite length_imap|].
  intros i c Hc. destruct (Hmds i c Hc) as (a & Ha).
  eexists. split; [done|]. unfold chunkRecord.
  split; [by simplify_map_eq|]. split; [by simplify_map_eq|].
  split; [by simplify_map_eq|].
  intros k H1 H2 H3 H4. by simplify_map_eq.
Qed.

End ToolExtras.

Lemma addDocumentTool_upsert_records_witness :
  let B := Reference.backend in
  let L := Reference.docLib in
  let input := Scenario.addText "Mastra is a framework." in
  let w := Scenario.frozenClock in
  let run := RagTools.addDocumentTool B L input (start w) in
  ∃ out name vs mds ids o,
    run.1 = inr out
    ∧ trace run.2 !! 2%nat = Some (Upsert name vs mds ids, o)
    ∧ ∃ doc' chunks,
        RagTools.chunked B L input w = inr (doc', chunks)
        ∧ NoDup ids ∧ length ids = length chunks
        ∧ ∀ i c, chunks !! i = Some c →
            ∃ m, mds !! i = Some m
                 ∧ m !! "text" = Some (JStr (chunk_text c))
                 ∧ m !! "documentId" = Some (RagTools.idOf B L w doc')
                 ∧ m !! "chunkIndex" = Some (JInt (Z.of_nat i))
                 ∧ ∀ k, k ≠ "text" → k ≠ "documentId" → k ≠ "chunkIndex" →
                        k ≠ "addedAt" → m !! k = chunk_metadata c !! k.
Proof.
  intros B L input w run.
  eexists _, _, _, _, _, _. split; [reflexivity|]. split; [reflexivity|].
  eapply (addDocumentTool_upsert_records B L input w _ run.2).
  - reflexivity.
  - apply (list_elem_of_lookup_2 _ 2%nat). reflexivity.
Defined.

(* ===================================================================== *)
(** ** The sample data of the tool-based agent                            *)
(* ===================================================================== *)

Section SampleData.
Import RagTools ToolSamples.
Context {W : Type} (B : Backend W) (L : DocLib).

Lemma chooseDocumentId_chosen doc' env :
  ∃ env', chooseDocumentId B (getMetadata L doc') env
          = (inr (chosenId L doc' (dateNow B (world env)).1), env')
          ∧ trace env' = trace env.
Proof.
  unfold chooseDocumentId, chosenId.
  destruct (truthy _); [by eexists|].
  rewrite freshId_run. by eexists.
Qed.

(** One sample: the loop body returns, whatever fails inside it. *)
Lemma processSample_run sampleDoc env :
  ∃ env' evs,
    processSample B L sampleDoc env = (inr tt, env')
    ∧ trace env' = trace env ++ evs
    ∧ SampleRun L sampleDoc evs.
Proof.
  unfold processSample, try_catch.
  rewrite bind_run, isoNow_run. cbn [world trace].
  rewrite bind_run, lift_sum_run.
  match goal with
  | |- context [chunk L (fromText L _ (<[_ := JStr ?a]> _)) _] =>
      change (chunk L _ _) with (chunk L (sampleDocument L sampleDoc a)
                                   sampleChunkArgs);
      destruct (chunk L (sampleDocument L sampleDoc a) sampleChunkArgs)
        as [e|[doc' chunks]] eqn:Hchunk
  end.
  { eexists _, []. split; [done|]. cbn [trace]. rewrite app_nil_r.
    split; [done|by econstructor]. }
  cbn [fst snd]. rewrite bind_run.
  match goal with
  | |- context [chooseDocumentId B _ ?env] =>
      destruct (chooseDocumentId_chosen doc' env) as (env3 & -> & Htr3)
  end.
  cbn [world trace] in Htr3.
  rewrite bind_run.
  match goal with
  | |- context [chunkRecord ?d] =>
      destruct (records_run B (chunkRecord d) chunks env3)
        as (mds & env5 & -> & Hlen & Htr5 & _)
  end.
  rewrite Htr3 in Htr5.
  rewrite bind_run, call_run.
  destruct (embedMany B (map chunk_text chunks) (world env5)) as [[e|vs] w6];
    cbn [fst snd outcome_of].
  { eexists _, _. split; [done|]. cbn [trace]. rewrite Htr5.
    split; [done|by econstructor]. }
  rewrite bind_run, call_run. cbn [world trace].
  match goal with
  | |- context [upsert B ?a ?b ?c ?d ?e] =>
      destruct (upsert B a b c d e) as [[e'|[]] w7]
  end; cbn [fst snd outcome_of].
  all: eexists _, _; split; [done|]; cbn [trace]; rewrite Htr5, <-app_assoc.
  all: split; [done|by econstructor].
Qed.

(** The loop: every sample is processed, in order. *)
Lemma processSamples_run samples env :
  ∃ env' evss,
    processSamples B L samples env = (inr tt, env')
    ∧ trace env' = trace env ++ concat evss
    ∧ Forall2 (SampleRun L) samples evss.
Proof.
  unfold processSamples. revert env.
  induction samples as [|x samples IH]; intros env.
  - exists env, []. split; [done|]. cbn [concat]. rewrite app_nil_r.
    split; [done|constructor].
  - destruct (processSample_run x env) as (env1 & evs & Hx & Htr1 & Hrun).
    destruct (IH env1) as (env2 & evss & Hrest & Htr2 & Hruns).
    exists env2, (evs :: evss). split; [|split].
    + cbn [forEach]. by rewrite (bind_inr _ _ _ _ _ Hx).
    + rewrite Htr2, Htr1. cbn [concat]. by rewrite app_assoc.
    + by constructor.
Qed.

Lemma initializeSampleData_run env :
  ∃ env' o evss,
    initializeSampleData B L env = (inr tt, env')
    ∧ trace env' = trace env ++ (createIndexCall, o) :: concat evss
    ∧ Forall2 (SampleRun L) sampleDocuments evss.
Proof.
  unfold initializeSampleData. rewrite bind_run.
  destruct (ensureIndex_run B env) as (o & w1 & -> & _ & _).
  match goal with
  | |- context [processSamples B L _ ?e] =>
      destruct (processSamples_run sampleDocuments e)
        as (env' & evss & Hrun & Htr & Hruns)
  end.
  exists env', o, evss. split; [done|]. split; [|done].
  rewrite Htr. cbn [trace]. by rewrite <-app_assoc.
Qed.

(** X13: [initializeSampleData] of the tool-based agent never raises.  It
    asks for the index once, first, and goes on whatever the outcome; then
    every one of the four samples is processed, in order, whatever happened
    to the samples before it: a sample whose chunking throws adds no call,
    a sample whose embedding throws adds the embedding call only, and any
    other sample adds the embedding call and one upsert with one metadata
    record and one id per chunk. *)
Theorem initializeSampleData_runs_every_sample env :
  ∃ env' o evss,
    initializeSampleData B L env = (inr tt, env')
    ∧ trace env' = trace env ++ (createIndexCall, o) :: concat evss
    ∧ Forall2 (SampleRun L) sampleDocuments evss.
Proof. apply initializeSampleData_run. Qed.

(** The ids of the upsert of one sample carry the id of the sample. *)
Lemma sample_upsert_ids sampleDoc k evs name vs mds ids o :
  inheritsId L → describesChunks L →
  prop sampleDoc.2 "id" = JStr k → k ≠ "" →
  SampleRun L sampleDoc evs →
  (Upsert name vs mds ids, o) ∈ evs →
  name = indexName ∧ length ids = length mds
  ∧ ∀ i id, ids !! i = Some id → id = chunkId (JStr k) i.
Proof.
  intros Hid Hlen Hk Hne Hrun Hin.
  destruct Hrun as [a e Hc|a doc' chunks e Hc|a doc' chunks t vs' mds' o' Hc Hl].
  - by apply elem_of_nil in Hin.
  - apply list_elem_of_singleton in Hin. discriminate Hin.
  - apply elem_of_cons in Hin as [Hin|Hin]; [discriminate Hin|].
    apply list_elem_of_singleton in Hin. injection Hin as -> -> -> -> ->.
    split; [done|]. split; [by rewrite length_imap|].
    intros i id. rewrite list_lookup_imap.
    destruct (chunks !! i) as [c|] eqn:Hi; [|done]. intros [= <-].
    f_equal. unfold chosenId.
    destruct (getMetadata L doc' !! 0%nat) as [m|] eqn:Hm.
    + rewrite (Hid _ _ _ _ _ _ Hc Hm).
      assert (prop (<["addedAt" := JStr a]> sampleDoc.2) "id" = JStr k) as ->.
      { unfold prop in *. by rewrite lookup_insert_ne. }
      by assert (truthy (JStr k) = true) as -> by (by destruct k).
    + apply lookup_ge_None in Hm. rewrite (Hlen _ _ _ _ _ Hc) in Hm.
      apply lookup_lt_Some in Hi. lia.
Qed.

(** The same along a list of samples. *)
Lemma samples_upsert_ids samples evss name vs mds ids o :
  inheritsId L → describesChunks L →
  Forall2 (SampleRun L) samples evss →
  (Upsert name vs mds ids, o) ∈ concat evss →
  ∃ sampleDoc, sampleDoc ∈ samples
    ∧ ∀ k, prop sampleDoc.2 "id" = JStr k → k ≠ "" →
           name = indexName ∧ length ids = length mds
           ∧ ∀ i id, ids !! i = Some id → id = chunkId (JStr k) i.
Proof.
  intros Hid Hlen Hruns. induction Hruns as [|s evs samples evss Hrun _ IH].
  - intros Hin. by apply elem_of_nil in Hin.
  - cbn [concat]. intros [Hin|Hin]%elem_of_app.
    + exists s. split; [by left|]. intros k Hk Hne.
      by eapply sample_upsert_ids.
    + destruct (IH Hin) as (s' & Hs' & H). exists s'. split; [by right|done].
Qed.

(** X14: the samples keep their ids.  Over a document library that hands
    the id of a document on to the metadata it reports after chunking, one
    record per chunk, every upsert of [initializeSampleData] goes to the
    index of the tools, with as many ids as metadata records, and its ids
    are [doc-sample-<n>-chunk-<i>] for one of the four sample ids: the
    clock-based id is never used for a sample. *)
Theorem initializeSampleData_keeps_sample_ids w env' name vs mds ids o :
  inheritsId L → describesChunks L →
  initializeSampleData B L (start w) = (inr tt, env') →
  (Upsert name vs mds ids, o) ∈ trace env' →
  name = indexName ∧ length ids = length mds
  ∧ ∃ k, k ∈ ["doc-sample-1"; "doc-sample-2"; "doc-sample-3"; "doc-sample-4"]
         ∧ ∀ i id, ids !! i = Some id
                   → id = k +:+ "-chunk-" +:+ pretty (Z.of_nat i).
Proof.
  intros Hid Hlen Hrun Hin.
  destruct (initializeSampleData_run (start w))
    as (env1 & o1 & evss & Hrun1 & Htr & Hruns).
  rewrite Hrun in Hrun1. injection Hrun1 as <-.
  rewrite Htr in Hin. cbn [start trace app] in Hin.
  apply elem_of_cons in Hin as [Hin|Hin]; [discriminate Hin|].
  destruct (samples_upsert_ids _ _ _ _ _ _ _ Hid Hlen Hruns Hin)
    as (s & Hs & H).
  unfold sampleDocuments in Hs.
  apply elem_of_cons in Hs as [->|Hs]; [|apply elem_of_cons in Hs as [->|Hs];
    [|apply elem_of_cons in Hs as [->|Hs];
      [|apply list_elem_of_singleton in Hs as ->]]].
  - destruct (H "doc-sample-1" eq_refl) as (Hn & Hl & Hids); [done|].
    split; [done|]. split; [done|]. exists "doc-sample-1".
    split; [repeat constructor|]. exact Hids.
  - destruct (H "doc-sample-2" eq_refl) as (Hn & Hl & Hids); [done|].
    split; [done|]. split; [done|]. exists "doc-sample-2".
    split; [repeat constructor|]. exact Hids.
  - destruct (H "doc-sample-3" eq_refl) as (Hn & Hl & Hids); [done|].
    split; [done|]. split; [done|]. exists "doc-sample-3".
    split; [repeat constructor|]. exact Hids.
  - destruct (H "doc-sample-4" eq_refl) as (Hn & Hl & Hids); [done|].
    split; [done|]. split; [done|]. exists "doc-sample-4".
    split; [repeat constructor|]. exact Hids.
Qed.

End SampleData.

Lemma reference_describesChunks : ToolSamples.describesChunks Reference.docLib.
Proof.
  intros text md args doc' chunks Hchunk. simpl in *.
  unfold Reference.split in Hchunk.
  destruct (_ && _); [|done]. injection Hchunk as <- <-.
  by rewrite length_map.
Qed.

Lemma initializeSampleData_keeps_sample_ids_witness :
  let run := ToolSamples.initializeSampleData Reference.backend
               Reference.docLib (start Scenario.tickingClock) in
  run.1 = inr tt
  ∧ match trace run.2 !! 2%nat with
    | Some (Upsert name vs mds ids, o) =>
        name = RagTools.indexName ∧ length ids = length mds
        ∧ ∃ k, k ∈ ["doc-sample-1"; "doc-sample-2"; "doc-sample-3";
                    "doc-sample-4"]
               ∧ ∀ i id, ids !! i = Some id
                         → id = k +:+ "-chunk-" +:+ pretty (Z.of_nat i)
    | _ => False
    end.
Proof.
  intros run.
  assert (run = (inr tt, run.2)) as Hrun by (vm_compute; reflexivity).
  split; [by rewrite Hrun|].
  destruct (trace run.2 !! 2%nat) as [[c o]|] eqn:Hev;
    [destruct c|]; try (vm_compute in Hev; discriminate Hev).
  eapply (initializeSampleData_keeps_sample_ids Reference.backend
            Reference.docLib Scenario.tickingClock run.2).
  - apply reference_inheritsId.
  - apply reference_describesChunks.
  - exact Hrun.
  - exact (list_elem_of_lookup_2 _ 2%nat _ Hev).
Defined.

(* ===================================================================== *)
(** ** The routes and the chat actions                                    *)
(* ===================================================================== *)

Section RouteResults.
Import Routes.
Context {V : Type} (J : Json V) {W : Type} (Ms : Mastra V W).

Lemma addDocumentPOST_cases req s :
  ∃ resp s',
    addDocumentPOST J Ms req s = (inr resp, s')
    ∧ Answered J "Text is required" "RAG agent not found"
        "Failed to add document to knowledge base"
        (λ body answer,
           [ ("success", IBool true); ("message", answer);
             ("text", field body "text");
             ("metadata", orDefault (field body "metadata") IEmptyObject) ])
        (λ body,
           addDocumentPrompt J (field body "text")
             (orDefault (field body "metadata") IEmptyObject))
        "text" req s resp s'.
Proof.
  unfold addDocumentPOST, try_catch. rewrite bind_run.
  unfold lift_sum at 1.
  destruct (properties req) as [e|body] eqn:Hreq.
  { eexists _, _. split; [done|]. apply answered_failed. by left. }
  destruct (truthyItem J (field body "text")) eqn:Htext; cbn [negb].
  2:{ eexists _, _. split; [done|]. by eapply answered_refused. }
  rewrite bind_run. unfold lookupAgent at 1.
  destruct (getAgent Ms "ragAgent" (app s)) as [[e|[agent|]] w1];
    cbn [fst snd].
  { eexists _, _. split; [done|]. apply answered_failed. right. by left. }
  2:{ eexists _, _. split; [done|]. by eapply answered_missing. }
  rewrite bind_run. unfold generateText at 1. cbn [app log].
  destruct (generate Ms agent "user" _ w1) as [[e|[answer|]] w2];
    cbn [fst snd].
  - eexists _, _. split; [done|]. apply answered_failed. right. right.
    exists body. cbn [log]. by rewrite <-app_assoc.
  - eexists _, _. split; [done|]. eapply answered_ok with (body := body) (answer := answer); [done|done|].
    cbn [log]. by rewrite <-app_assoc.
  - eexists _, _. split; [done|]. apply answered_failed. right. right.
    exists body. cbn [log]. by rewrite <-app_assoc.
Qed.

Lemma ragSearchPOST_cases req s :
  ∃ resp s',
    ragSearchPOST J Ms req s = (inr resp, s')
    ∧ Answered J "Query is required" "RAG agent not found"
        "Failed to search knowledge base"
        (λ body answer,
           [ ("success", IBool true); ("result", answer);
             ("query", field body "query");
             ("maxResults", orDefault (field body "maxResults") (INumber 5)) ])
        (λ body,
           ragSearchPrompt J (field body "query")
             (orDefault (field body "maxResults") (INumber 5)))
        "query" req s resp s'.
Proof.
  unfold ragSearchPOST, try_catch. rewrite bind_run.
  unfold lift_sum at 1.
  destruct (properties req) as [e|body] eqn:Hreq.
  { eexists _, _. split; [done|]. apply answered_failed. by left. }
  destruct (truthyItem J (field body "query")) eqn:Htext; cbn [negb].
  2:{ eexists _, _. split; [done|]. by eapply answered_refused. }
  rewrite bind_run. unfold lookupAgent at 1.
  destruct (getAgent Ms "ragAgent" (app s)) as [[e|[agent|]] w1];
    cbn [fst snd].
  { eexists _, _. split; [done|]. apply answered_failed. right. by left. }
  2:{ eexists _, _. split; [done|]. by eapply answered_missing. }
  rewrite bind_run. unfold generateText at 1. cbn [app log].
  destruct (generate Ms agent "user" _ w1) as [[e|[answer|]] w2];
    cbn [fst snd].
  - eexists _, _. split; [done|]. apply answered_failed. right. right.
    exists body. cbn [log]. by rewrite <-app_assoc.
  - eexists _, _. split; [done|]. eapply answered_ok with (body := body) (answer := answer); [done|done|].
    cbn [log]. by rewrite <-app_assoc.
  - eexists _, _. split; [done|]. apply answered_failed. right. right.
    exists body. cbn [log]. by rewrite <-app_assoc.
Qed.

(** X15: what the add-document route answers, case by case.  When reading
    the body throws, the answer is 500 "Failed to add document to knowledge
    base" and nothing else happened.  When the body has no truthy [text],
    the answer is 400 "Text is required" and the agent registry is not
    touched.  Otherwise the registry is asked for "ragAgent": when that
    throws the answer is the 500 failure, when there is no such agent it is
    500 "RAG agent not found".  Otherwise the agent is asked once, with the
    prompt built from the text and the metadata (the empty object when the
    body has none): its answer goes out under [message] with status 200
    beside the text and the metadata, and when it throws or gives no result
    the answer is the 500 failure. *)
Theorem addDocumentPOST_responds req s :
  let answers := addDocumentPOST J Ms req s in
  let failed :=
    json [("error", IString "Failed to add document to knowledge base")] 500 in
  (∀ e, properties req = inl e → answers = (inr failed, s))
  ∧ (∀ body,
       properties req = inr body →
       truthyItem J (field body "text") = false →
       answers = (inr (json [("error", IString "Text is required")] 400), s))
  ∧ (∀ body,
       properties req = inr body →
       truthyItem J (field body "text") = true →
       let found := getAgent Ms "ragAgent" (app s) in
       let s1 := {| app := found.2; log := log s ++ [GetAgent "ragAgent"] |} in
       (∀ e, found.1 = inl e → answers = (inr failed, s1))
       ∧ (found.1 = inr None →
          answers = (inr (json [("error", IString "RAG agent not found")] 500), s1))
       ∧ (∀ agent,
            found.1 = inr (Some agent) →
            let text := field body "text" in
            let metadata := orDefault (field body "metadata") IEmptyObject in
            let prompt := addDocumentPrompt J text metadata in
            let answered := generate Ms agent "user" prompt found.2 in
            let s2 := {| app := answered.2;
                         log := log s ++ [GetAgent "ragAgent";
                                          Generate "user" prompt] |} in
            (∀ answer,
               answered.1 = inr (Some answer) →
               answers = (inr (json [ ("success", IBool true);
                                      ("message", answer);
                                      ("text", text);
                                      ("metadata", metadata) ] 200), s2))
            ∧ (answered.1 = inr None → answers = (inr failed, s2))
            ∧ (∀ e, answered.1 = inl e → answers = (inr failed, s2)))).
Proof.
  intros answers failed. subst answers failed.
  unfold addDocumentPOST, try_catch, bind, lift_sum, ret, lookupAgent,
    generateText.
  destruct (properties req) as [e0|body0] eqn:Hreq.
  { repeat split; intros; simplify_eq; done. }
  destruct (truthyItem J (field body0 "text")) eqn:Htext; cbn [negb].
  2:{ repeat split; intros; simplify_eq; done || congruence. }
  split; [intros; simplify_eq|]. split; [intros; simplify_eq; congruence|].
  intros body [= <-] _.
  destruct (getAgent Ms "ragAgent" (app s)) as [[e1|[agent1|]] w1];
    cbn [fst snd].
  { repeat split; intros; simplify_eq; done. }
  2:{ repeat split; intros; simplify_eq; done. }
  split; [intros; simplify_eq|]. split; [intros; simplify_eq|].
  intros agent [= <-]. cbn [Routes.app Routes.log].
  rewrite <-!app_assoc. cbn [List.app].
  destruct (generate Ms agent1 "user" _ w1) as [[e2|[answer2|]] w2];
    cbn [fst snd]; repeat split; intros; simplify_eq; done.
Qed.

(** X16: what the rag-search route answers, case by case, in the same way
    with its own messages: 400 "Query is required" for a body without a
    truthy [query], 500 "RAG agent not found", 500 "Failed to search
    knowledge base" for whatever throws, and otherwise the answer of the
    agent under [result] with status 200 beside the query and
    [maxResults]; [maxResults] is 5 when the body has none, in the prompt
    and in the answer. *)
Theorem ragSearchPOST_responds req s :
  let answers := ragSearchPOST J Ms req s in
  let failed := json [("error", IString "Failed to search knowledge base")] 500 in
  (∀ e, properties req = inl e → answers = (inr failed, s))
  ∧ (∀ body,
       properties req = inr body →
       truthyItem J (field body "query") = false →
       answers = (inr (json [("error", IString "Query is required")] 400), s))
  ∧ (∀ body,
       properties req = inr body →
       truthyItem J (field body "query") = true →
       let found := getAgent Ms "ragAgent" (app s) in
       let s1 := {| app := found.2; log := log s ++ [GetAgent "ragAgent"] |} in
       (∀ e, found.1 = inl e → answers = (inr failed, s1))
       ∧ (found.1 = inr None →
          answers = (inr (json [("error", IString "RAG agent not found")] 500), s1))
       ∧ (∀ agent,
            found.1 = inr (Some agent) →
            let query := field body "query" in
            let maxResults := orDefault (field body "maxResults") (INumber 5) in
            let prompt := ragSearchPrompt J query maxResults in
            let answered := generate Ms agent "user" prompt found.2 in
            let s2 := {| app := answered.2;
                         log := log s ++ [GetAgent "ragAgent";
                                          Generate "user" prompt] |} in
            (∀ answer,
               answered.1 = inr (Some answer) →
               answers = (inr (json [ ("success", IBool true);
                                      ("result", answer);
                                      ("query", query);
                                      ("maxResults", maxResults) ] 200), s2))
            ∧ (answered.1 = inr None → answers = (inr failed, s2))
            ∧ (∀ e, answered.1 = inl e → answers = (inr failed, s2)))).
Proof.
  intros answers failed. subst answers failed.
  unfold ragSearchPOST, try_catch, bind, lift_sum, ret, lookupAgent,
    generateText.
  destruct (properties req) as [e0|body0] eqn:Hreq.
  { repeat split; intros; simplify_eq; done. }
  destruct (truthyItem J (field body0 "query")) eqn:Htext; cbn [negb].
  2:{ repeat split; intros; simplify_eq; done || congruence. }
  split; [intros; simplify_eq|]. split; [intros; simplify_eq; congruence|].
  intros body [= <-] _.
  destruct (getAgent Ms "ragAgent" (app s)) as [[e1|[agent1|]] w1];
    cbn [fst snd].
  { repeat split; intros; simplify_eq; done. }
  2:{ repeat split; intros; simplify_eq; done. }
  split; [intros; simplify_eq|]. split; [intros; simplify_eq|].
  intros agent [= <-]. cbn [Routes.app Routes.log].
  rewrite <-!app_assoc. cbn [List.app].
  destruct (generate Ms agent1 "user" _ w1) as [[e2|[answer2|]] w2];
    cbn [fst snd]; repeat split; intros; simplify_eq; done.
Qed.

Lemma postAndPick_served (route : Parsed V → M (Server W) (Response V))
    url body key fallback failure s resp s' :
  route (inr (Some body)) s = (inr resp, s') →
  postAndPick J (servedBy route) url body key fallback failure s
  = (inr (orItem J (field (payload resp) key) (IString fallback)), s').
Proof.
  intros Hroute. unfold postAndPick, try_catch, servedBy, bind, lift_sum, ret.
  by rewrite Hroute.
Qed.

(** X17: the search action of the chat component never shows what was
    found.  It reads [relevantContext], a property that no answer of the
    rag-search route has (the route answers under [result]): served by the
    route, the action returns "No relevant information found." for every
    query, whatever the agent answered. *)
Theorem searchAction_never_shows_answer query maxResults s :
  searchAction J (servedBy (ragSearchPOST J Ms)) query maxResults s
  = (inr (IString "No relevant information found."),
     (ragSearchPOST J Ms
        (inr (Some [ ("query", query);
                     ("maxResults", orDefault maxResults (INumber 5)) ])) s).2).
Proof.
  unfold searchAction.
  destruct (ragSearchPOST_cases
              (inr (Some [ ("query", query);
                           ("maxResults", orDefault maxResults (INumber 5)) ])) s)
    as (resp & s' & Hroute & Hcase).
  rewrite (postAndPick_served _ _ _ _ _ _ _ _ _ Hroute), Hroute.
  by destruct Hcase.
Qed.

(** X18: the add_document actions report success when the route failed.
    An answer of the add-document route with a status other than 200 has
    no [message]; served by the route, the action of the chat component
    then returns "Document added successfully." and the action of the
    runtime route "Document added successfully". *)
Theorem add_actions_report_success_on_failure text metadata url s resp s' :
  addDocumentPOST J Ms
    (inr (Some [ ("text", text);
                 ("metadata", orDefault metadata IEmptyObject) ])) s
  = (inr resp, s') →
  status resp ≠ 200 →
  addAction J (servedBy (addDocumentPOST J Ms)) text metadata s
  = (inr (IString "Document added successfully."), s')
  ∧ add_document J (servedBy (addDocumentPOST J Ms)) url text metadata s
    = (inr (IString "Document added successfully"), s').
Proof.
  intros Hroute Hstatus. unfold addAction, add_document.
  rewrite !(postAndPick_served _ _ _ _ _ _ _ _ _ Hroute).
  destruct (addDocumentPOST_cases
              (inr (Some [ ("text", text);
                           ("metadata", orDefault metadata IEmptyObject) ])) s)
    as (resp0 & s0 & Hroute0 & Hcase).
  rewrite Hroute in Hroute0. injection Hroute0 as <- <-.
  by destruct Hcase.
Qed.

End RouteResults.

Lemma addDocumentPOST_responds_witness :
  let J := Routes.plainJson in
  let Ms := Routes.echoing "Stored." in
  let text := Routes.IString "Mastra is a framework." in
  Routes.addDocumentPOST J Ms (inr (Some [("text", text)])) Routes.idle
  = (inr (Routes.json [ ("success", Routes.IBool true);
                        ("message", Routes.IString "Stored.");
                        ("text", text);
                        ("metadata", Routes.IEmptyObject) ] 200),
     {| Routes.app := tt;
        Routes.log :=
          [ Routes.GetAgent "ragAgent";
            Routes.Generate "user"
              (Routes.addDocumentPrompt J text Routes.IEmptyObject) ] |}).
Proof.
  intros J Ms text.
  apply (proj1 (proj2 (proj2 (proj2 (proj2
           (addDocumentPOST_responds J Ms (inr (Some [("text", text)]))
              Routes.idle))
           [("text", text)] eq_refl eq_refl)) tt eq_refl)
         (Routes.IString "Stored.")).
  reflexivity.
Defined.

Lemma ragSearchPOST_responds_witness :
  let J := Routes.plainJson in
  let Ms := Routes.echoing "Mastra is a framework." in
  let query := Routes.IString "What is Mastra?" in
  Routes.ragSearchPOST J Ms (inr (Some [("query", query)])) Routes.idle
  = (inr (Routes.json [ ("success", Routes.IBool true);
                        ("result", Routes.IString "Mastra is a framework.");
                        ("query", query);
                        ("maxResults", Routes.INumber 5) ] 200),
     {| Routes.app := tt;
        Routes.log :=
          [ Routes.GetAgent "ragAgent";
            Routes.Generate "user"
              (Routes.ragSearchPrompt J query (Routes.INumber 5)) ] |}).
Proof.
  intros J Ms query.
  apply (proj1 (proj2 (proj2 (proj2 (proj2
           (ragSearchPOST_responds J Ms (inr (Some [("query", query)]))
              Routes.idle))
           [("query", query)] eq_refl eq_refl)) tt eq_refl)
         (Routes.IString "Mastra is a framework.")).
  reflexivity.
Defined.

Lemma add_actions_report_success_on_failure_witness :
  let J := Routes.plainJson in
  let Ms := Routes.echoing "Stored." in
  let route := Routes.addDocumentPOST J Ms in
  Routes.addAction J (Routes.servedBy route) (Routes.IString "")
    Routes.IUndefined Routes.idle
  = (inr (Routes.IString "Document added successfully."), Routes.idle)
  ∧ Routes.add_document J (Routes.servedBy route) None (Routes.IString "")
      Routes.IUndefined Routes.idle
    = (inr (Routes.IString "Document added successfully"), Routes.idle).
Proof.
  intros J Ms route.
  apply (add_actions_report_success_on_failure J Ms (Routes.IString "")
           Routes.IUndefined None Routes.idle
           (Routes.json [("error", Routes.IString "Text is required")] 400)
           Routes.idle).
  - reflexivity.
  - simpl. lia.
Defined.
